(** * SDR discovery and frequency-role assignment (utils/sdr.py, app.py)

    A shallow embedding of the [SDR] and [SDRDevices] classes of
    [utils/sdr.py] and of the [sdr_info] route of [app.py].

    Python values are embedded as follows.
    - [str] is [string]; a text is a sequence of code points below 256.
    - a value that is either [None] or a [str] (the serial of a device, the
      value of a setting) is [option string].
    - [dict] is [gmap], [set] is [gset], [list] is [list].
    - [datetime] and [timedelta] are [Z], in microseconds.
    - a method that mutates [self] takes the object and returns the new one;
      a property that may probe returns its value and the object.
    - the outside world (the shell and the wall clock) is a [Host]; running
      a command, reading the clock, printing and raising live in the monad
      [M]. A command ends well with a text on its stdout, or fails with
      nothing on it. What a call can raise besides ([OSError] when no
      process can be started, [UnicodeDecodeError] when the output is not
      UTF-8) no handler of the code covers; such runs, and [json.dumps]
      in [sdr_info], are left out. *)

From Stdlib Require Import ZArith Ascii String.
From stdpp Require Import gmap strings list pretty.

Open Scope string_scope.
Open Scope Z_scope.

(** ** Text primitives: [str.isspace], [str.strip], [str.splitlines], [re] *)

Module Text.

Definition code (c : ascii) : nat := nat_of_ascii c.

Definition between (lo hi : nat) (c : ascii) : bool :=
  (Nat.leb lo (code c) && Nat.leb (code c) hi)%bool.

(** [str.isspace] on one code point below 256; it is also what [\s] of a
    [str] pattern accepts: TAB to CR, FS to US, space, NEL and NBSP. *)
Definition isspace (c : ascii) : bool :=
  (between 9 13 c || between 28 32 c
   || Nat.eqb (code c) 133 || Nat.eqb (code c) 160)%bool.

(** [\d] of a [str] pattern, below code point 256. *)
Definition isdigit (c : ascii) : bool := between 48 57 c.

(** The class [[0-9a-fA-F]]. *)
Definition ishex (c : ascii) : bool :=
  (isdigit c || between 97 102 c || between 65 70 c)%bool.

Definition LF : ascii := ascii_of_nat 10.
Definition CR : ascii := ascii_of_nat 13.

(** The line boundaries of [str.splitlines] below code point 256. *)
Definition islinebreak (c : ascii) : bool :=
  (between 10 13 c || between 28 30 c || Nat.eqb (code c) 133)%bool.

(** Longest prefix whose characters satisfy [p], and what follows it. *)
Fixpoint span (p : ascii -> bool) (s : string) : string * string :=
  match s with
  | EmptyString => (EmptyString, EmptyString)
  | String c r =>
      if p c then let '(a, b) := span p r in (String c a, b)
      else (EmptyString, s)
  end.

(** A greedy [p+] that is followed, in the patterns below, by something
    no [p] character can start: it takes the longest run, or fails. *)
Definition plus (p : ascii -> bool) (s : string) : option (string * string) :=
  match span p s with
  | (EmptyString, _) => None
  | (String c a, b) => Some (String c a, b)
  end.

(** A literal of the pattern: the text after it, when [s] starts with it. *)
Fixpoint literal (lit s : string) : option string :=
  match lit, s with
  | EmptyString, _ => Some s
  | String a lit', String b s' =>
      if Ascii.eqb a b then literal lit' s' else None
  | String _ _, EmptyString => None
  end.

(** The tail of the serial pattern, a greedy any-character group anchored
    at the end (no [re.MULTILINE]): the group runs to the end of the text,
    or to a line feed that is the last character. *)
Fixpoint dot_star_eol (s : string) : option string :=
  match s with
  | EmptyString => Some EmptyString
  | String c r =>
      if Ascii.eqb c LF then
        match r with EmptyString => Some EmptyString | _ => None end
      else option_map (String c) (dot_star_eol r)
  end.

(** [re.search]: the match at the leftmost position that has one. *)
Fixpoint re_search {A} (here : string -> option A) (s : string) : option A :=
  match here s with
  | Some g => Some g
  | None =>
      match s with
      | EmptyString => None
      | String _ r => re_search here r
      end
  end.

Definition lstrip (s : string) : string := snd (span isspace s).

Fixpoint rstrip (s : string) : string :=
  match s with
  | EmptyString => EmptyString
  | String c r =>
      match rstrip r with
      | EmptyString => if isspace c then EmptyString else String c EmptyString
      | r' => String c r'
      end
  end.

(** [str.strip()] *)
Definition strip (s : string) : string := rstrip (lstrip s).

(** [str.splitlines()]: [cur] is the line being read ([None] right after
    a boundary), [after_cr] tells that the last character was a CR, so
    that a following LF belongs to the same boundary. *)
Fixpoint splitlines_from (cur : option string) (after_cr : bool)
         (s : string) : list string :=
  match s with
  | EmptyString => match cur with Some l => [l] | None => [] end
  | String c r =>
      if (after_cr && Ascii.eqb c LF)%bool then splitlines_from None false r
      else if islinebreak c then
        default EmptyString cur :: splitlines_from None (Ascii.eqb c CR) r
      else
        splitlines_from (Some (default EmptyString cur +:+ String c EmptyString))
                        false r
  end.

Definition splitlines (s : string) : list string :=
  splitlines_from None false s.

(** Iterating an [io.StringIO]: the lines end at LF and keep it. *)
Fixpoint readlines_from (cur : string) (s : string) : list string :=
  match s with
  | EmptyString => match cur with EmptyString => [] | _ => [cur] end
  | String c r =>
      if Ascii.eqb c LF then (cur +:+ String c EmptyString) :: readlines_from EmptyString r
      else readlines_from (cur +:+ String c EmptyString) r
  end.

Definition readlines (s : string) : list string := readlines_from EmptyString s.

(** [str.startswith] *)
Definition startswith (s pre : string) : bool :=
  match literal pre s with Some _ => true | None => false end.

End Text.

(** ** Python values *)

(** [None] or a [str]. *)
Abbreviation pyval := (option string).

(** Truth value of [None] or a [str]: only a non-empty [str] is true. *)
Definition truthy (v : pyval) : bool :=
  match v with
  | Some (String _ _) => true
  | _ => false
  end.

(** ** The outside world and the monad of effects *)

(** What a command run through the shell does: it ends with the status 0
    and [text] on its stdout, or it fails: the shell cannot run it (status
    127) or it ends with another failure status, and its stdout is empty. *)
Inductive completed : Type :=
| Stdout (text : string)
| Fails.

(** The host answers the [n]-th interaction of the process with it: a
    command line, or a reading of the wall clock (microseconds). *)
Record Host : Type := {
  shell : nat -> string -> completed;
  clock : nat -> Z
}.

Inductive exn : Type :=
| SubprocessError
| KeyError (k : Z)
| IndexError.

Inductive event : Type :=
| Ran (cmdline : string)
| ToStdout (msg : string)
| ToStderr (msg : string).

(** The process: how many times it has consulted the host, and what it has
    run and printed, oldest first. *)
Record Proc : Type := {
  ticks : nat;
  journal : list event
}.

Inductive outcome (A : Type) : Type :=
| Returned (a : A)
| Raised (e : exn).
Arguments Returned {A} a.
Arguments Raised {A} e.

Definition M (A : Type) : Type := Proc -> outcome A * Proc.

Definition ret {A} (a : A) : M A := fun p => (Returned a, p).

Definition bind {A B} (m : M A) (k : A -> M B) : M B :=
  fun p =>
    match m p with
    | (Returned a, p') => k a p'
    | (Raised e, p') => (Raised e, p')
    end.

Definition raise {A} (e : exn) : M A := fun p => (Raised e, p).

Declare Scope proc_scope.
Delimit Scope proc_scope with proc.
Notation "x <- m ;; k" := (bind m (fun x => k))
  (at level 100, m at next level, right associativity) : proc_scope.
Notation "m ;;; k" := (bind m (fun _ => k))
  (at level 100, right associativity) : proc_scope.
Open Scope proc_scope.

(** [try: body / except subprocess.SubprocessError:]: [None] when the
    handler has to run; any other exception goes on to the caller. *)
Definition try_subprocess {A} (body : M A) : M (option A) :=
  fun p =>
    match body p with
    | (Returned a, p') => (Returned (Some a), p')
    | (Raised SubprocessError, p') => (Returned None, p')
    | (Raised e, p') => (Raised e, p')
    end.

Definition emit (e : event) : M unit :=
  fun p => (Returned tt, {| ticks := ticks p; journal := (journal p ++ [e])%list |}).

(** [print(msg)] *)
Definition print (msg : string) : M unit := emit (ToStdout msg).

(** [print(msg, file=sys.stderr)], which is also [print_err(msg)]. *)
Definition print_err (msg : string) : M unit := emit (ToStderr msg).

Section WithHost.

Variable H : Host.

(** [subprocess.run(cmdline, shell=True, capture_output=True)] followed by
    [result.stdout.decode()]. Without [check=] and [timeout=] the call
    raises no [SubprocessError]: it returns whatever the status is, and the
    stdout of a command that failed is empty. *)
Definition subprocess_run (cmdline : string) : M string :=
  fun p =>
    let p' := {| ticks := S (ticks p); journal := (journal p ++ [Ran cmdline])%list |} in
    match shell H (ticks p) cmdline with
    | Stdout text => (Returned text, p')
    | Fails => (Returned EmptyString, p')
    end.

(** [subprocess.run(cmdline, shell=True, check=True)]: a failure status
    makes the call raise [CalledProcessError], a [SubprocessError]. *)
Definition subprocess_run_checked (cmdline : string) : M unit :=
  fun p =>
    let p' := {| ticks := S (ticks p); journal := (journal p ++ [Ran cmdline])%list |} in
    match shell H (ticks p) cmdline with
    | Stdout _ => (Returned tt, p')
    | Fails => (Raised SubprocessError, p')
    end.

(** [datetime.now()] *)
Definition datetime_now : M Z :=
  fun p => (Returned (clock H (ticks p)),
            {| ticks := S (ticks p); journal := journal p |}).

End WithHost.

(** [for x in xs: ...] where the body updates the loop variables [a]. *)
Fixpoint foldM {A B} (body : A -> B -> M A) (xs : list B) (a : A) : M A :=
  match xs with
  | [] => ret a
  | x :: xs' => a' <- body a x ;; foldM body xs' a'
  end.

(** ** class SDR *)

Record SDR : Type := {
  _type : string;
  _address : string;
  _serial_probed : pyval
}.

(** [SDR.__init__] *)
Definition SDR_init (type_ address : string) : SDR :=
  {| _type := type_; _address := address; _serial_probed := None |}.

Definition set_serial_probed (self : SDR) (v : pyval) : SDR :=
  {| _type := _type self; _address := _address self; _serial_probed := v |}.

(** The serial pattern of [SDR._serial] tried at the start of [s]: the
    word iSerial, white space, digits, white space, and group 1, which is
    the rest of the line. Each greedy run is followed by a character outside
    its class, so giving characters back never helps. *)
Definition serial_here (s : string) : option string :=
  r1 ← Text.literal "iSerial" s;
  '(_, r2) ← Text.plus Text.isspace r1;
  '(_, r3) ← Text.plus Text.isdigit r2;
  '(_, r4) ← Text.plus Text.isspace r3;
  Text.dot_star_eol r4.

(** [re.search] of the serial pattern in [line]; the result is group 1. *)
Definition serial_match (line : string) : option string :=
  Text.re_search serial_here line.

(** The loop over [output.splitlines()] in [SDR._serial]: every matching
    line stores its group, stripped, in [_serial_probed]. *)
Definition scan_serial (probed : pyval) (lines : list string) : pyval :=
  fold_left
    (fun probed line =>
       match serial_match line with
       | Some g => Some (Text.strip g)
       | None => probed
       end)
    lines probed.

Definition lsusb_v_cmdline (address : string) : string :=
  "lsusb -s " +:+ address +:+ " -v".

Definition sdrplay_placeholder : string := "SDRplay w/o serial".

Section Devices.

Variable H : Host.

(** The property [SDR._serial]: the value, and the object afterwards. *)
Definition _serial (self : SDR) : M (pyval * SDR) :=
  if truthy (_serial_probed self) then ret (_serial_probed self, self)
  else
    result <- try_subprocess (subprocess_run H (lsusb_v_cmdline (_address self))) ;;
    match result with
    | None =>
        print_err ("'lsusb -s " +:+ _address self +:+ " -v' failed") ;;;
        ret (Some "", self)
    | Some output =>
        print_err ("lsusb -s " +:+ _address self +:+ ": " +:+ output) ;;;
        let self' :=
          set_serial_probed self
            (scan_serial (_serial_probed self) (Text.splitlines output)) in
        if (negb (truthy (_serial_probed self'))
            && String.eqb (_type self') "sdrplay")%bool
        then ret (Some sdrplay_placeholder, self')
        else ret (_serial_probed self', self')
    end.

(** The property [SDR._json], a dict with three keys. *)
Definition _json (self : SDR) : M (gmap string pyval * SDR) :=
  r <- _serial self ;;
  let '(serial, self') := r in
  ret (<["serial" := serial]>
         (<["address" := Some (_address self')]>
            (<["type" := Some (_type self')]> ∅)),
       self').

(** A value [SDR.__eq__] can be handed. *)
Inductive pyobj : Type :=
| AnSDR (s : SDR)
| PyNone
| PyStr (s : string)
| PyInt (n : Z).

(** The [isinstance(other, SDR)] branch of [SDR.__eq__]:
    [self._json == other._json], left operand first. *)
Definition json_eq (self other : SDR) : M (bool * SDR * SDR) :=
  r1 <- _json self ;;
  let '(j1, self') := r1 in
  r2 <- _json other ;;
  let '(j2, other') := r2 in
  ret (bool_decide (j1 = j2), self', other').

(** [SDR.__eq__] *)
Definition __eq__ (self : SDR) (other : pyobj) : M (bool * SDR * pyobj) :=
  match other with
  | AnSDR o =>
      r <- json_eq self o ;;
      let '(b, self', o') := r in
      ret (b, self', AnSDR o')
  | _ => ret (false, self, other)
  end.

(** [el in items] for a list of SDRs and an SDR that is not one of its
    objects: [item == el] for each item in turn, until one is equal. The
    item is the left operand, as in CPython 3.9 and later. *)
Fixpoint list_contains (items : list SDR) (el : SDR) : M (bool * list SDR * SDR) :=
  match items with
  | [] => ret (false, [], el)
  | item :: rest =>
      r <- json_eq item el ;;
      let '(b, item', el') := r in
      if b then ret (true, item' :: rest, el')
      else
        r' <- list_contains rest el' ;;
        let '(b', rest', el'') := r' in
        ret (b', item' :: rest', el'')
  end.

(** [for sdr in sdrs: ...] where the body reads and updates the loop
    variables [a] and may probe, hence update, the object [sdr]. *)
Fixpoint for_each {A} (body : A -> SDR -> M (A * SDR)) (sdrs : list SDR) (a : A)
  : M (A * list SDR) :=
  match sdrs with
  | [] => ret (a, [])
  | sdr :: rest =>
      r <- body a sdr ;;
      let '(a', sdr') := r in
      r' <- for_each body rest a' ;;
      let '(a'', rest') := r' in
      ret (a'', sdr' :: rest')
  end.

(** ** class SDRDevices *)

Record SDRDevices : Type := {
  sdrs : list SDR;
  duplicates : gset pyval;
  _last_check : Z
}.

(** [SDRDevices.__init__]; [datetime.fromtimestamp(0)] is time 0. *)
Definition SDRDevices_init : SDRDevices :=
  {| sdrs := []; duplicates := ∅; _last_check := 0 |}.

(** The pattern [Bus ([0-9a-fA-F]+) Device ([0-9a-fA-F]+): ID {pidvid}]
    tried at the start of [s]; the result is groups 1 and 2. The six
    identifiers have no character that is special in a pattern. *)
Definition bus_device_here (pidvid s : string) : option (string * string) :=
  r1 ← Text.literal "Bus " s;
  '(bus, r2) ← Text.plus Text.ishex r1;
  r3 ← Text.literal " Device " r2;
  '(dev, r4) ← Text.plus Text.ishex r3;
  _ ← Text.literal (": ID " +:+ pidvid) r4;
  Some (bus, dev).

(** [SDRDevices._get_address_for_pid_vid] *)
Definition _get_address_for_pid_vid (pidvid line : string) : string :=
  match Text.re_search (bus_device_here pidvid) line with
  | Some (bus, dev) => bus +:+ ":" +:+ dev
  | None => ""
  end.

Definition pidvids : list string :=
  ["1d50:60a1"; "0bda:2838"; "0bda:2832"; "1df7:2500"; "1df7:3000"; "1df7:3050"].

(** The body of the inner loop of [get_sdr_info], for one [line] and one
    [pidvid]; [found] is [self.sdrs]. *)
Definition consider (line : string) (found : list SDR) (pidvid : string)
  : M (list SDR) :=
  let address := _get_address_for_pid_vid pidvid line in
  if truthy (Some address) then
    print ("get_sdr_info() found SDR " +:+ pidvid +:+ " at " +:+ address) ;;;
    let candidate :=
      if Text.startswith pidvid "1df7" then SDR_init "sdrplay" address
      else if String.eqb pidvid "1d50:60a1" then SDR_init "airspy" address
      else SDR_init "rtlsdr" address in
    r <- list_contains found candidate ;;
    let '(present, found', candidate') := r in
    if negb present then ret (found' ++ [candidate'])%list else ret found'
  else ret found.

(** The first loop of [get_sdr_info], over the lines of the listing. *)
Definition collect (lines : list string) : M (list SDR) :=
  foldM (fun found line => foldM (consider line) pidvids found) lines [].

(** The body of the second loop of [get_sdr_info]; the loop variables are
    [found_serials] and [self.duplicates]. *)
Definition note_serial (a : gset pyval * gset pyval) (sdr : SDR)
  : M (gset pyval * gset pyval * SDR) :=
  let '(found_serials, dups) := a in
  r <- _serial sdr ;;
  let '(s, sdr1) := r in
  r' <- _serial sdr1 ;;
  let '(s', sdr2) := r' in
  if bool_decide (s ∈ found_serials)
  then ret (found_serials, dups ∪ {[s']}, sdr2)
  else ret (found_serials ∪ {[s']}, dups, sdr2).

(** [SDRDevices.get_sdr_info] *)
Definition get_sdr_info (self : SDRDevices) : M SDRDevices :=
  result <- try_subprocess (subprocess_run H "lsusb") ;;
  match result with
  | None => print_err "lsusb failed" ;;; ret self
  | Some lsusb_text =>
      print_err ("lsusb: " +:+ lsusb_text) ;;;
      found <- collect (Text.readlines lsusb_text) ;;
      r <- for_each note_serial found (∅, ∅) ;;
      let '(_, dups, found') := r in
      ret {| sdrs := found'; duplicates := dups; _last_check := _last_check self |}
  end.

(** [timedelta(seconds=5.0)] *)
Definition ttl : Z := 5000000.

(** [SDRDevices._ensure_populated] *)
Definition _ensure_populated (self : SDRDevices) : M SDRDevices :=
  now <- datetime_now H ;;
  if now - _last_check self <? ttl then ret self
  else
    self' <- get_sdr_info self ;;
    now' <- datetime_now H ;;
    ret {| sdrs := sdrs self'; duplicates := duplicates self';
           _last_check := now' |}.

(** [ret[key]] for reading: a missing key raises. *)
Definition getitem (d : gmap Z pyval) (key : Z) : M pyval :=
  match d !! key with
  | Some v => ret v
  | None => raise (KeyError key)
  end.

(** The body of the loop of [addresses_per_frequency]. *)
Definition assign (d : gmap Z pyval) (sdr : SDR) : M (gmap Z pyval * SDR) :=
  if String.eqb (_type sdr) "airspy" then
    r <- _serial sdr ;;
    let '(s, sdr') := r in
    ret (<[1090 := s]> d, sdr')
  else if String.eqb (_type sdr) "rtlsdr" then
    r <- _serial sdr ;;
    let '(s, sdr1) := r in
    if bool_decide (s ∈ [Some "1090"; Some "00001090"]) then
      r' <- _serial sdr1 ;;
      let '(s', sdr2) := r' in
      ret (<[1090 := s']> d, sdr2)
    else
      r' <- _serial sdr1 ;;
      let '(s', sdr2) := r' in
      if bool_decide (s' ∈ [Some "978"; Some "00000978"]) then
        r'' <- _serial sdr2 ;;
        let '(s'', sdr3) := r'' in
        ret (<[978 := s'']> d, sdr3)
      else ret (d, sdr2)
  else ret (d, sdr).

(** [{frequency: "" for frequency in frequencies}] *)
Definition blank (frequencies : list Z) : gmap Z pyval :=
  fold_left (fun d frequency => <[frequency := Some ""]> d) frequencies ∅.

(** Lines 132 to 143 of [sdr.py]: the heuristic on the stored list. *)
Definition assign_all (self : SDRDevices) : M (gmap Z pyval * SDRDevices) :=
  r <- for_each assign (sdrs self) (blank [1090; 978]) ;;
  let '(d, sdrs') := r in
  let self' := {| sdrs := sdrs'; duplicates := duplicates self;
                  _last_check := _last_check self |} in
  v1090 <- getitem d 1090 ;;
  if negb (truthy v1090) then
    v978 <- getitem d 978 ;;
    if (negb (truthy v978) && Nat.eqb (length sdrs') 1)%bool then
      match sdrs' with
      | [] => raise IndexError
      | sdr :: rest =>
          r' <- _serial sdr ;;
          let '(s, sdr') := r' in
          ret (<[1090 := s]> d,
               {| sdrs := sdr' :: rest; duplicates := duplicates self;
                  _last_check := _last_check self |})
      end
    else ret (d, self')
  else ret (d, self').

(** The property [SDRDevices.addresses_per_frequency] *)
Definition addresses_per_frequency (self : SDRDevices)
  : M (gmap Z pyval * SDRDevices) :=
  self' <- _ensure_populated self ;;
  assign_all self'.

End Devices.

(** ** The route [sdr_info] of app.py *)

(** The configuration layer ([utils], not part of this development): an
    [Env] is a plain object, hence true, that carries a [value]; and
    [Constants.env_by_tags] gives the [Env] of a tag, or [None]. *)
Record Env : Type := { value : pyval }.

(** What [sdr_info] hands to [json.dumps]. *)
Record sdr_info_result : Type := {
  sdrdevices : list (gmap string pyval);
  frequencies : gmap Z pyval
}.

Section App.

Variable H : Host.
Variable env_by_tags : string -> option Env.

(** The body of the loop [for freq in [1090, 978]] of [sdr_info]. *)
Definition override (frequencies : gmap Z pyval) (freq : Z) : gmap Z pyval :=
  match env_by_tags (pretty freq +:+ "serial") with
  | Some setting =>
      if bool_decide (value setting ≠ Some "")
      then <[freq := value setting]> frequencies
      else frequencies
  | None => frequencies
  end.

(** [AdsbIm.sdr_info], up to the call of [json.dumps]; [self] is
    [self._sdrdevices]. *)
Definition sdr_info (self : SDRDevices) : M (sdr_info_result * SDRDevices) :=
  self1 <- _ensure_populated H self ;;
  r <- addresses_per_frequency H self1 ;;
  let '(guess, self2) := r in
  let frequencies := fold_left override [1090; 978] guess in
  r' <- for_each
          (fun js sdr =>
             r <- _json H sdr ;;
             let '(j, sdr') := r in
             ret ((js ++ [j])%list, sdr'))
          (sdrs self2) [] ;;
  let '(js, sdrs3) := r' in
  ret ({| sdrdevices := js; frequencies := frequencies |},
       {| sdrs := sdrs3; duplicates := duplicates self2;
          _last_check := _last_check self2 |}).

End App.

(** ** Hosts whose answers do not change *)

(** The shell gives the same answer to the same command line whenever it
    is asked; the clock is free. *)
Definition stable (H : Host) : Prop :=
  ∀ n m cmdline, shell H n cmdline = shell H m cmdline.

Definition idle : Proc := {| ticks := 0; journal := [] |}.

(** What a read of [_serial] returns, and leaves of the object, in a
    process that has not consulted the host yet. On a stable host every
    read does the same ([_serial_stable]). *)
Definition read_at_rest (H : Host) (d : SDR) : pyval * SDR :=
  match fst (_serial H d idle) with
  | Returned r => r
  | Raised _ => (None, d)
  end.

(** The resolved serial of a device. *)
Definition resolved_serial (H : Host) (d : SDR) : pyval := fst (read_at_rest H d).

(** The device once its serial has been read. *)
Definition settled (H : Host) (d : SDR) : SDR := snd (read_at_rest H d).

(** The rule of [SDR.__eq__]: the three entries of [_json] agree. *)
Definition equal_devices (H : Host) (a b : SDR) : Prop :=
  _type a = _type b ∧ _address a = _address b
  ∧ resolved_serial H a = resolved_serial H b.

(** No two devices of [l], at different positions, are equal. *)
Definition distinct (H : Host) (l : list SDR) : Prop :=
  ∀ i j a b, i ≠ j → l !! i = Some a → l !! j = Some b → ¬ equal_devices H a b.

(** Number of devices of [l] whose resolved serial is [v]. *)
Definition count_serial (H : Host) (v : pyval) (l : list SDR) : nat :=
  length (filter (λ d, resolved_serial H d = v) l).

(** The object after a probe whose command printed [out]. *)
Definition probed_with (out : string) (d : SDR) : SDR :=
  set_serial_probed d (scan_serial (_serial_probed d) (Text.splitlines out)).

(** What a read returns right after a probe: the memo, or the placeholder. *)
Definition reported (d : SDR) : pyval :=
  if (negb (truthy (_serial_probed d)) && String.eqb (_type d) "sdrplay")%bool
  then Some sdrplay_placeholder
  else _serial_probed d.

(** The body of the loop of [addresses_per_frequency] without its reads:
    what it does to the mapping for a device whose resolved serial is known. *)
Definition assigned (H : Host) (m : gmap Z pyval) (d : SDR) : gmap Z pyval :=
  let s := resolved_serial H d in
  if String.eqb (_type d) "airspy" then <[1090 := s]> m
  else if String.eqb (_type d) "rtlsdr" then
    if bool_decide (s ∈ [Some "1090"; Some "00001090"]) then <[1090 := s]> m
    else if bool_decide (s ∈ [Some "978"; Some "00000978"]) then <[978 := s]> m
    else m
  else m.

(** [m] returns, from every state of the process, a value that satisfies [Q]. *)
Definition yields {A} (m : M A) (Q : A → Prop) : Prop :=
  ∀ p, ∃ a p', m p = (Returned a, p') ∧ Q a.

(** The body of the second loop of [get_sdr_info] without its reads. *)
Definition noted (H : Host) (a : gset pyval * gset pyval) (d : SDR)
  : gset pyval * gset pyval :=
  let s := resolved_serial H d in
  if bool_decide (s ∈ a.1) then (a.1, a.2 ∪ {[s]}) else (a.1 ∪ {[s]}, a.2).

(** [addresses_per_frequency] after [_ensure_populated], without its reads:
    the mapping for a stored list whose resolved serials are known. *)
Definition heuristic (H : Host) (l : list SDR) : gmap Z pyval :=
  let m := fold_left (assigned H) l (blank [1090; 978]) in
  match l with
  | [d] =>
      if (negb (truthy (m !!! 1090)) && negb (truthy (m !!! 978)))%bool
      then <[1090 := resolved_serial H d]> m
      else m
  | _ => m
  end.

(** ** Hosts and registries to run the code on *)

Module Bench.

Definition nl : string := String Text.LF EmptyString.

(** A host whose shell answers [lsusb] with [listing] and the verbose query
    of an address with [verbose], at any time, and whose clock starts at
    [t0] and advances by a millisecond at each interaction. *)
Definition host_with (listing : completed) (verbose : string → completed)
           (t0 : Z) : Host :=
  {| shell := λ _ cmdline,
       if String.eqb cmdline "lsusb" then listing
       else if Text.startswith cmdline "lsusb -s " then
         verbose (substring 9 (String.length cmdline - 12) cmdline)
       else Stdout "";
     clock := λ n, t0 + 1000 * Z.of_nat n |}.

Definition descriptor (serial_line : string) : completed :=
  Stdout ("Device Descriptor:" +:+ nl +:+
          "  bLength                18" +:+ nl +:+
          "  iManufacturer           1 Realtek" +:+ nl +:+
          serial_line +:+
          "  bNumConfigurations      1" +:+ nl).

Definition with_serial (serial : string) : completed :=
  descriptor ("  iSerial                 3 " +:+ serial +:+ nl).

Definition without_serial : completed := descriptor "".

Definition airspy_line (address : string) : string :=
  "Bus " +:+ substring 0 3 address +:+ " Device " +:+ substring 4 3 address
  +:+ ": ID 1d50:60a1 OpenMoko, Inc. Airspy" +:+ nl.

Definition rtlsdr_line (address : string) : string :=
  "Bus " +:+ substring 0 3 address +:+ " Device " +:+ substring 4 3 address
  +:+ ": ID 0bda:2838 Realtek Semiconductor Corp. RTL2838 DVB-T" +:+ nl.

Definition hub_line : string :=
  "Bus 001 Device 001: ID 1d6b:0002 Linux Foundation 2.0 root hub" +:+ nl.

Definition noon : Z := 1700000000000000.

(** An Airspy listed before an RTL-SDR whose serial is 1090. *)
Definition airspy_then_rtlsdr : Host :=
  host_with
    (Stdout (hub_line +:+ airspy_line "001:002" +:+ rtlsdr_line "001:003"))
    (λ address,
       if String.eqb address "001:002" then with_serial "AIRSPY SN:35AC63DC2D8C7A4F"
       else with_serial "1090")
    noon.

(** One RTL-SDR, whose serial is 978. *)
Definition lone_uat : Host :=
  host_with (Stdout (hub_line +:+ rtlsdr_line "001:003"))
            (λ _, with_serial "978") noon.

(** Two RTL-SDRs that both report the serial 1090. *)
Definition twins : Host :=
  host_with (Stdout (hub_line +:+ rtlsdr_line "001:003" +:+ rtlsdr_line "001:004"))
            (λ _, with_serial "1090") noon.

(** Devices whose descriptors have no iSerial line. *)
Definition silent : Host :=
  host_with (Stdout (hub_line +:+ rtlsdr_line "001:003"))
            (λ _, without_serial) noon.

(** The listing command cannot be run. *)
Definition unplugged : Host :=
  host_with Fails (λ _, with_serial "1090") noon.

(** Two RTL-SDRs whose descriptors have no iSerial line, until the one at
    001:004 shows the serial X, from the seventh interaction on. *)
Definition late_serial : Host :=
  {| shell := λ n cmdline,
       if String.eqb cmdline "lsusb"
       then Stdout (rtlsdr_line "001:003" +:+ rtlsdr_line "001:004")
       else if (String.eqb cmdline "lsusb -s 001:004 -v" && Nat.leb 6 n)%bool
            then with_serial "X"
            else without_serial;
     clock := λ n, noon + 1000 * Z.of_nat n |}.

(** A listing that shows the RTL-SDR at 001:003 on two lines; its
    descriptor has no iSerial line at first, and the serial 1090 from the
    third interaction on. *)
Definition slow_descriptor : Host :=
  {| shell := λ n cmdline,
       if String.eqb cmdline "lsusb"
       then Stdout (rtlsdr_line "001:003" +:+ rtlsdr_line "001:003")
       else if Nat.leb 2 n then with_serial "1090" else without_serial;
     clock := λ n, noon + 1000 * Z.of_nat n |}.

(** A configuration whose setting for 1090 has the value [None]. *)
Definition unset_1090 (tag : string) : option Env :=
  if String.eqb tag "1090serial" then Some {| value := None |} else None.

Definition rtlsdr_1090 : SDR :=
  {| _type := "rtlsdr"; _address := "001:003"; _serial_probed := Some "1090" |}.

(** A registry that was refreshed long before [noon]. *)
Definition stale : SDRDevices :=
  {| sdrs := [rtlsdr_1090]; duplicates := ∅; _last_check := noon - 60000000 |}.

(** A registry that was refreshed one second before [noon]. *)
Definition recent : SDRDevices :=
  {| sdrs := [rtlsdr_1090]; duplicates := ∅; _last_check := noon - 1000000 |}.

(** A configuration that stores the serial AA11 for 978 and nothing, as an
    empty string, for 1090. *)
Definition stored_uat (tag : string) : option Env :=
  if String.eqb tag "978serial" then Some {| value := Some "AA11" |}
  else if String.eqb tag "1090serial" then Some {| value := Some "" |}
  else None.

End Bench.

(** The command lines a process has run, oldest first. *)
Definition commands_run (p : Proc) : list string :=
  omap (λ e, match e with Ran cmdline => Some cmdline | _ => None end) (journal p).

(** A lone RTL-SDR that announces itself, by its serial, as the UAT radio. *)
Definition announces_978 (H : Host) (d : SDR) : Prop :=
  _type d = "rtlsdr"
  ∧ (resolved_serial H d = Some "978" ∨ resolved_serial H d = Some "00000978").

(** ** The route [get_tz] of app.py *)

Module Timezone.

Definition isupper (c : ascii) : bool := Text.between 65 90 c.
Definition islower (c : ascii) : bool := Text.between 97 122 c.

(** The end anchor of a pattern without [re.MULTILINE]: the end of the
    text, or a line feed that is its last character. *)
Definition at_end (s : string) : bool :=
  match s with
  | EmptyString => true
  | String c EmptyString => Ascii.eqb c Text.LF
  | _ => false
  end.

(** One word of the pattern, an upper-case letter and a greedy run of
    lower-case letters: what follows it. What follows a run in the pattern
    (a slash, the end) is no lower-case letter, so the run is the longest. *)
Definition word (s : string) : option string :=
  match s with
  | String c r =>
      if isupper c then '(_, r') ← Text.plus islower r; Some r' else None
  | EmptyString => None
  end.

(** [re.match] of the pattern of [get_tz], two words around a slash,
    anchored at both ends: whether there is a match. *)
Definition looks_like_timezone (s : string) : bool :=
  match r1 ← word s; r2 ← Text.literal "/" r1; word r2 with
  | Some r3 => at_end r3
  | None => false
  end.

(** What a route returns: a text, or a rendered template. *)
Inductive response : Type :=
| Body (text : string)
| Template (name : string).

(** [AdsbIm.get_tz] for a request that has the argument [tz]. The result
    is the response and the value stored in the setting [FEEDER_TZ], if
    one is. The command is run with [check=True]: it ends well, or the
    call raises a [SubprocessError]. *)
Definition get_tz (H : Host) (browser_timezone : string)
  : M (response * option string) :=
  if negb (looks_like_timezone browser_timezone) then ret (Body "invalid", None)
  else
    result <- try_subprocess
                (subprocess_run_checked H
                   ("timedatectl set-timezone " +:+ browser_timezone)) ;;
    match result with
    | None => print_err "failed to set up timezone"
    | Some _ => ret tt
    end ;;;
    ret (Template "setup.html", Some browser_timezone).

End Timezone.

(** ** Vocabulary for the properties of the enumeration *)

(** Every character of [s] satisfies [p]. *)
Fixpoint every (p : ascii → bool) (s : string) : bool :=
  match s with
  | EmptyString => true
  | String c r => (p c && every p r)%bool
  end.

(** The type and the address, which no method assigns after [__init__]. *)
Definition same_identity (a b : SDR) : Prop :=
  _type a = _type b ∧ _address a = _address b.

(** The type [get_sdr_info] gives to a device found for [pidvid]. *)
Definition kind_of_pidvid (pidvid : string) : string :=
  if Text.startswith pidvid "1df7" then "sdrplay"
  else if String.eqb pidvid "1d50:60a1" then "airspy"
  else "rtlsdr".

(** A line of [text] shows, for one of the six identifiers, a device of
    type [t] at address [a]. *)
Definition listed (text t a : string) : Prop :=
  ∃ line pidvid,
    line ∈ Text.readlines text ∧ pidvid ∈ pidvids
    ∧ _get_address_for_pid_vid pidvid line = a ∧ a ≠ ""
    ∧ kind_of_pidvid pidvid = t.

(** The list [l] has a device of type [t] at address [a]. *)
Definition holds (l : list SDR) (t a : string) : Prop :=
  ∃ d, d ∈ l ∧ _type d = t ∧ _address d = a.

(** The entry of [sdr_info] for a device, on a host whose answers do not
    change. *)
Definition json_of (H : Host) (d : SDR) : gmap string pyval :=
  <["serial" := resolved_serial H d]>
    (<["address" := Some (_address d)]> (<["type" := Some (_type d)]> ∅)).

(** A device that can take the 1090 role from the one before it in the
    loop of [addresses_per_frequency]. *)
Definition claims_1090 (H : Host) (d : SDR) : Prop :=
  _type d = "airspy"
  ∨ (_type d = "rtlsdr"
     ∧ (resolved_serial H d = Some "1090"
        ∨ resolved_serial H d = Some "00001090")).

(** What is stored on [d] does not disagree with the host: [d] resolves to
    the serial that a new object of its type at its address resolves to. *)
Definition consistent (H : Host) (d : SDR) : Prop :=
  resolved_serial H d = resolved_serial H (SDR_init (_type d) (_address d)).

(** * Properties *)

(** ** The monad *)

Lemma bind_returned {A B} (m : M A) (k : A → M B) p a p' :
  m p = (Returned a, p') → bind m k p = k a p'.
Proof. intros E. unfold bind. now rewrite E. Qed.

Lemma yields_ret {A} (a : A) (Q : A → Prop) : Q a → yields (ret a) Q.
Proof. intros HQ p. exists a, p. split; [reflexivity | exact HQ]. Qed.

Lemma yields_bind {A B} (m : M A) (k : A → M B) (Q : A → Prop) (R : B → Prop) :
  yields m Q → (∀ a, Q a → yields (k a) R) → yields (bind m k) R.
Proof.
  intros Hm Hk p.
  destruct (Hm p) as (a & p1 & E & HQ).
  destruct (Hk a HQ p1) as (b & p2 & E' & HR).
  exists b, p2. split; [| exact HR].
  rewrite (bind_returned _ _ _ _ _ E). exact E'.
Qed.

Lemma yields_bind_ret {A B} (a : A) (k : A → M B) (Q : B → Prop) :
  yields (k a) Q → yields (bind (ret a) k) Q.
Proof. intros Hk p. exact (Hk p). Qed.

Lemma yields_weaken {A} (m : M A) (Q R : A → Prop) :
  yields m Q → (∀ a, Q a → R a) → yields m R.
Proof.
  intros Hm HQR p. destruct (Hm p) as (a & p' & E & HQ).
  exists a, p'. auto.
Qed.

Lemma yields_print msg : yields (print msg) (λ _, True).
Proof. intros p. eexists _, _. split; [reflexivity | exact I]. Qed.

Lemma yields_print_err msg : yields (print_err msg) (λ _, True).
Proof. intros p. eexists _, _. split; [reflexivity | exact I]. Qed.

Lemma yields_foldM {A B} (body : A → B → M A) (I : A → Prop) xs :
  (∀ a x, I a → yields (body a x) I) →
  ∀ a, I a → yields (foldM body xs a) I.
Proof.
  intros Hbody. induction xs as [| x xs IH]; intros a Ha; simpl.
  - now apply yields_ret.
  - eapply yields_bind; [apply Hbody, Ha |]. intros a' Ha'. now apply IH.
Qed.

(** ** Reading a serial *)

Section Reads.

Variable H : Host.

Lemma _serial_memo d p :
  truthy (_serial_probed d) = true →
  _serial H d p = (Returned (_serial_probed d, d), p).
Proof. intros T. unfold _serial. now rewrite T. Qed.

Lemma _serial_fails d p :
  truthy (_serial_probed d) = false →
  shell H (ticks p) (lsusb_v_cmdline (_address d)) = Fails →
  _serial H d p =
    (Returned (reported (probed_with "" d), probed_with "" d),
     {| ticks := S (ticks p);
        journal := (journal p ++ [Ran (lsusb_v_cmdline (_address d))])
                   ++ [ToStderr ("lsusb -s " +:+ _address d +:+ ": " +:+ "")] |}).
Proof.
  intros T E. unfold _serial. rewrite T.
  unfold bind, try_subprocess, subprocess_run. rewrite E. simpl.
  unfold reported, probed_with.
  now destruct (negb _ && _)%bool.
Qed.

Lemma _serial_probes d p out :
  truthy (_serial_probed d) = false →
  shell H (ticks p) (lsusb_v_cmdline (_address d)) = Stdout out →
  _serial H d p =
    (Returned (reported (probed_with out d), probed_with out d),
     {| ticks := S (ticks p);
        journal := (journal p ++ [Ran (lsusb_v_cmdline (_address d))])
                   ++ [ToStderr ("lsusb -s " +:+ _address d +:+ ": " +:+ out)] |}).
Proof.
  intros T E. unfold _serial. rewrite T.
  unfold bind, try_subprocess, subprocess_run. rewrite E. simpl.
  unfold reported, probed_with.
  now destruct (negb _ && _)%bool.
Qed.

(** A read never raises. *)
Lemma _serial_returns d : yields (_serial H d) (λ _, True).
Proof.
  intros p. destruct (truthy (_serial_probed d)) eqn:T.
  - rewrite (_serial_memo d p T). eauto.
  - destruct (shell H (ticks p) (lsusb_v_cmdline (_address d))) as [out |] eqn:E.
    + rewrite (_serial_probes d p out T E). eauto.
    + rewrite (_serial_fails d p T E). eauto.
Qed.

Lemma scan_serial_last p lines :
  scan_serial p lines =
    match scan_serial None lines with Some s => Some s | None => p end.
Proof.
  unfold scan_serial. revert p.
  induction lines as [| l lines IH]; intros p; simpl; [reflexivity |].
  rewrite IH. rewrite (IH (match serial_match l with Some g => _ | None => None end)).
  destruct (serial_match l); now destruct (fold_left _ lines None).
Qed.

Lemma scan_serial_twice p lines :
  scan_serial (scan_serial p lines) lines = scan_serial p lines.
Proof.
  rewrite (scan_serial_last (scan_serial p lines)).
  rewrite (scan_serial_last p lines).
  now destruct (scan_serial None lines).
Qed.

Lemma probed_with_twice out d :
  probed_with out (probed_with out d) = probed_with out d.
Proof. unfold probed_with. simpl. now rewrite scan_serial_twice. Qed.

Lemma reported_truthy d :
  truthy (_serial_probed d) = true → reported d = _serial_probed d.
Proof. intros T. unfold reported. now rewrite T. Qed.

Lemma read_at_rest_memo d :
  truthy (_serial_probed d) = true → read_at_rest H d = (_serial_probed d, d).
Proof. intros T. unfold read_at_rest. now rewrite _serial_memo. Qed.

Lemma read_at_rest_fails d :
  truthy (_serial_probed d) = false →
  shell H 0 (lsusb_v_cmdline (_address d)) = Fails →
  read_at_rest H d = (reported (probed_with "" d), probed_with "" d).
Proof. intros T E. unfold read_at_rest. now rewrite _serial_fails. Qed.

Lemma read_at_rest_probes d out :
  truthy (_serial_probed d) = false →
  shell H 0 (lsusb_v_cmdline (_address d)) = Stdout out →
  read_at_rest H d = (reported (probed_with out d), probed_with out d).
Proof. intros T E. unfold read_at_rest. now rewrite (_serial_probes _ _ out). Qed.

Lemma settled_type d : _type (settled H d) = _type d.
Proof.
  unfold settled. destruct (truthy (_serial_probed d)) eqn:T.
  - now rewrite read_at_rest_memo.
  - destruct (shell H 0 (lsusb_v_cmdline (_address d))) as [out |] eqn:E.
    + now rewrite (read_at_rest_probes _ out).
    + now rewrite read_at_rest_fails.
Qed.

Lemma settled_address d : _address (settled H d) = _address d.
Proof.
  unfold settled. destruct (truthy (_serial_probed d)) eqn:T.
  - now rewrite read_at_rest_memo.
  - destruct (shell H 0 (lsusb_v_cmdline (_address d))) as [out |] eqn:E.
    + now rewrite (read_at_rest_probes _ out).
    + now rewrite read_at_rest_fails.
Qed.

(** Reading twice is reading once. *)
Lemma read_at_rest_settled d :
  read_at_rest H (settled H d) = (resolved_serial H d, settled H d).
Proof.
  unfold settled, resolved_serial.
  destruct (truthy (_serial_probed d)) eqn:T.
  - rewrite (read_at_rest_memo d T). simpl. now apply read_at_rest_memo.
  - destruct (shell H 0 (lsusb_v_cmdline (_address d))) as [out |] eqn:E.
    + rewrite (read_at_rest_probes d out T E). simpl.
      destruct (truthy (_serial_probed (probed_with out d))) eqn:T'.
      * rewrite (read_at_rest_memo _ T'). now rewrite reported_truthy.
      * rewrite (read_at_rest_probes _ out T' E).
        now rewrite probed_with_twice.
    + rewrite (read_at_rest_fails d T E). simpl.
      destruct (truthy (_serial_probed (probed_with "" d))) eqn:T'.
      * rewrite (read_at_rest_memo _ T'). now rewrite reported_truthy.
      * rewrite (read_at_rest_fails _ T' E).
        now rewrite probed_with_twice.
Qed.

Lemma resolved_settled d : resolved_serial H (settled H d) = resolved_serial H d.
Proof. unfold resolved_serial at 1. now rewrite read_at_rest_settled. Qed.

Lemma settled_settled d : settled H (settled H d) = settled H d.
Proof. unfold settled at 1. now rewrite read_at_rest_settled. Qed.

Hypothesis stable_H : stable H.

(** On a stable host every read returns the resolved serial and leaves the
    settled object. *)
Lemma _serial_stable d :
  yields (_serial H d) (λ r, r = (resolved_serial H d, settled H d)).
Proof.
  intros p. unfold resolved_serial, settled.
  destruct (truthy (_serial_probed d)) eqn:T.
  - eexists _, _. split; [now apply _serial_memo |].
    now rewrite read_at_rest_memo.
  - destruct (shell H 0 (lsusb_v_cmdline (_address d))) as [out |] eqn:E.
    + eexists _, _. split.
      * apply (_serial_probes d p out T). now rewrite (stable_H _ 0%nat).
      * now rewrite (read_at_rest_probes d out T E).
    + eexists _, _. split.
      * apply (_serial_fails d p T). now rewrite (stable_H _ 0%nat).
      * now rewrite (read_at_rest_fails d T E).
Qed.

End Reads.

(** ** Equality of devices, and the loops, on a stable host *)

Lemma json_agree (t1 a1 t2 a2 : string) (s1 s2 : pyval) :
  (<["serial" := s1]> (<["address" := Some a1]> (<["type" := Some t1]> ∅))
   : gmap string pyval)
  = <["serial" := s2]> (<["address" := Some a2]> (<["type" := Some t2]> ∅))
  ↔ t1 = t2 ∧ a1 = a2 ∧ s1 = s2.
Proof.
  split.
  - intros E.
    pose proof (f_equal (λ m, m !! "type") E) as Et.
    pose proof (f_equal (λ m, m !! "address") E) as Ea.
    pose proof (f_equal (λ m, m !! "serial") E) as Es.
    simpl in Et, Ea, Es. simplify_map_eq. auto.
  - now intros (-> & -> & ->).
Qed.

Lemma yields_for_each {A} (body : A → SDR → M (A * SDR))
      (step : A → SDR → A) (R : SDR → SDR → Prop) :
  (∀ a d, yields (body a d) (λ r, r.1 = step a d ∧ R d r.2)) →
  ∀ l a, yields (for_each body l a)
           (λ r, r.1 = fold_left step l a ∧ Forall2 R l r.2).
Proof.
  intros Hbody. induction l as [| d l IH]; intros a; simpl.
  - apply yields_ret. simpl. auto.
  - eapply yields_bind; [apply Hbody |].
    intros [a' d'] [Ha Hd]. simpl in Ha, Hd. subst a'.
    eapply yields_bind; [apply IH |].
    intros [a'' l'] [Ha Hl]. simpl in Ha, Hl.
    apply yields_ret. simpl. auto.
Qed.

Section Stable.

Variable H : Host.

Lemma equal_devices_refl a : equal_devices H a a.
Proof. now unfold equal_devices. Qed.

Lemma equal_devices_sym a b : equal_devices H a b → equal_devices H b a.
Proof. unfold equal_devices. intros (-> & -> & ->). auto. Qed.

Lemma equal_devices_trans a b c :
  equal_devices H a b → equal_devices H b c → equal_devices H a c.
Proof. unfold equal_devices. intros (-> & -> & ->) (-> & -> & ->). auto. Qed.

Lemma equal_settled a : equal_devices H a (settled H a).
Proof.
  unfold equal_devices.
  now rewrite settled_type, settled_address, resolved_settled.
Qed.

Lemma Forall2_equal_refl l : Forall2 (equal_devices H) l l.
Proof. induction l; constructor; auto using equal_devices_refl. Qed.

Lemma distinct_nil : distinct H [].
Proof. intros i j a b _ E. now rewrite lookup_nil in E. Qed.

Lemma distinct_equal l l' :
  Forall2 (equal_devices H) l l' → distinct H l → distinct H l'.
Proof.
  intros F D i j a' b' Hij Ha Hb Hab.
  destruct (Forall2_lookup_r _ _ _ _ _ F Ha) as (a & Ea & Raa).
  destruct (Forall2_lookup_r _ _ _ _ _ F Hb) as (b & Eb & Rbb).
  apply (D i j a b Hij Ea Eb).
  eapply equal_devices_trans; [exact Raa |].
  eapply equal_devices_trans; [exact Hab |].
  now apply equal_devices_sym.
Qed.

Lemma distinct_snoc l c :
  distinct H l → (∀ x, x ∈ l → ¬ equal_devices H x c) → distinct H (l ++ [c]).
Proof.
  intros D Hc i j a b Hij Ha Hb Hab.
  destruct (decide (i < length l)%nat) as [Hi | Hi];
    destruct (decide (j < length l)%nat) as [Hj | Hj].
  - rewrite lookup_app_l in Ha, Hb by assumption. exact (D i j a b Hij Ha Hb Hab).
  - rewrite lookup_app_l in Ha by assumption.
    rewrite lookup_app_r in Hb by lia.
    apply list_lookup_singleton_Some in Hb as [_ <-].
    apply (Hc a); [| exact Hab]. eapply list_elem_of_lookup_2, Ha.
  - rewrite lookup_app_l in Hb by assumption.
    rewrite lookup_app_r in Ha by lia.
    apply list_lookup_singleton_Some in Ha as [_ <-].
    apply (Hc b); [eapply list_elem_of_lookup_2, Hb | now apply equal_devices_sym].
  - rewrite lookup_app_r in Ha, Hb by lia.
    apply list_lookup_singleton_Some in Ha as [Ei _].
    apply list_lookup_singleton_Some in Hb as [Ej _]. lia.
Qed.

Hypothesis stable_H : stable H.

Lemma _json_stable d :
  yields (_json H d)
    (λ r, r = (<["serial" := resolved_serial H d]>
                 (<["address" := Some (_address d)]>
                    (<["type" := Some (_type d)]> ∅)),
               settled H d)).
Proof.
  unfold _json. eapply yields_bind; [now apply _serial_stable |].
  intros r ->. apply yields_ret.
  now rewrite settled_type, settled_address.
Qed.

Lemma json_eq_stable a b :
  yields (json_eq H a b)
    (λ r, (r.1.1 = true ↔ equal_devices H a b)
          ∧ r.1.2 = settled H a ∧ r.2 = settled H b).
Proof.
  unfold json_eq. eapply yields_bind; [apply _json_stable |].
  intros r ->. eapply yields_bind; [apply _json_stable |].
  intros r ->. apply yields_ret. simpl.
  split; [| auto].
  rewrite bool_decide_eq_true. apply json_agree.
Qed.

Lemma list_contains_stable l : ∀ c,
  yields (list_contains H l c)
    (λ r, (r.1.1 = true ↔ ∃ x, x ∈ l ∧ equal_devices H x c)
          ∧ Forall2 (equal_devices H) l r.1.2 ∧ equal_devices H c r.2).
Proof.
  induction l as [| item rest IH]; intros c; simpl.
  - apply yields_ret. simpl. split; [| split].
    + split; [discriminate |]. intros (x & Hx & _). now apply elem_of_nil in Hx.
    + constructor.
    + apply equal_devices_refl.
  - eapply yields_bind; [apply json_eq_stable |].
    intros [[b item'] c'] (Hb & Ei & Ec). simpl in Hb, Ei, Ec. subst item' c'.
    destruct b.
    + apply yields_ret. simpl. split; [| split].
      * split; [| reflexivity]. intros _. exists item.
        split; [apply elem_of_cons; now left | now apply Hb].
      * constructor; [apply equal_settled | apply Forall2_equal_refl].
      * apply equal_settled.
    + eapply yields_bind; [apply IH |].
      intros [[b' rest'] c''] (Hb' & HF & Hc). simpl in Hb', HF, Hc.
      apply yields_ret. simpl. split; [| split].
      * rewrite Hb'. split.
        -- intros (x & Hx & Hxc). exists x. split; [apply elem_of_cons; now right |].
           eapply equal_devices_trans; [exact Hxc |].
           apply equal_devices_sym, equal_settled.
        -- intros (x & Hx & Hxc). apply elem_of_cons in Hx as [-> | Hx].
           ++ apply Hb in Hxc. discriminate.
           ++ exists x. split; [exact Hx |].
              eapply equal_devices_trans; [exact Hxc | apply equal_settled].
      * constructor; [apply equal_settled | exact HF].
      * eapply equal_devices_trans; [apply equal_settled | exact Hc].
Qed.

Lemma consider_distinct line found pidvid :
  distinct H found → yields (consider H line found pidvid) (distinct H).
Proof.
  intros D. unfold consider.
  destruct (truthy (Some (_get_address_for_pid_vid pidvid line)));
    [| now apply yields_ret].
  eapply yields_bind; [apply yields_print |]. intros _ _.
  eapply yields_bind; [apply list_contains_stable |].
  intros [[present found'] c'] (Hp & HF & Hc). simpl in Hp, HF, Hc.
  pose proof (distinct_equal _ _ HF D) as D'.
  destruct present; simpl; apply yields_ret; [exact D' |].
  apply distinct_snoc; [exact D' |].
  intros x' Hx' Hxc.
  apply list_elem_of_lookup in Hx' as [i Hi].
  destruct (Forall2_lookup_r _ _ _ _ _ HF Hi) as (x & Ex & Rxx).
  assert (false = true) as Habs; [| discriminate].
  apply Hp. exists x. split; [eapply list_elem_of_lookup_2, Ex |].
  eapply equal_devices_trans; [exact Rxx |].
  eapply equal_devices_trans; [exact Hxc |].
  now apply equal_devices_sym.
Qed.

Lemma collect_distinct lines : yields (collect H lines) (distinct H).
Proof.
  unfold collect. apply yields_foldM; [| apply distinct_nil].
  intros found line D. apply yields_foldM; [| exact D].
  intros found' pidvid D'. now apply consider_distinct.
Qed.

Lemma note_serial_stable a d :
  yields (note_serial H a d)
    (λ r, r.1 = noted H a d ∧ equal_devices H d r.2).
Proof.
  unfold note_serial, noted. destruct a as [F D].
  eapply yields_bind; [now apply _serial_stable |]. intros r ->.
  eapply yields_bind; [now apply _serial_stable |]. intros r ->.
  rewrite resolved_settled, settled_settled. simpl.
  destruct (bool_decide _); apply yields_ret; simpl;
    (split; [reflexivity | apply equal_settled]).
Qed.

End Stable.

(** ** Counting serials *)

Section Counting.

Variable H : Host.

Lemma count_serial_cons v d l :
  count_serial H v (d :: l) =
    if decide (resolved_serial H d = v) then S (count_serial H v l)
    else count_serial H v l.
Proof.
  unfold count_serial. rewrite filter_cons.
  now destruct (decide (resolved_serial H d = v)).
Qed.

Lemma count_serial_equal v l l' :
  Forall2 (equal_devices H) l l' → count_serial H v l = count_serial H v l'.
Proof.
  induction 1 as [| a b l l' (_ & _ & E) _ IH]; [reflexivity |].
  rewrite !count_serial_cons, E, IH. reflexivity.
Qed.

(** What the second loop of [get_sdr_info] has collected, from the sets
    [F] of found serials and [D] of duplicates it started with. *)
Lemma noted_fold l : ∀ F D v,
  (v ∈ (fold_left (noted H) l (F, D)).1 ↔ v ∈ F ∨ (0 < count_serial H v l)%nat)
  ∧ (v ∈ (fold_left (noted H) l (F, D)).2 ↔
       v ∈ D ∨ (v ∈ F ∧ (0 < count_serial H v l)%nat)
       ∨ (1 < count_serial H v l)%nat).
Proof.
  induction l as [| d l IH]; intros F D v.
  - simpl. unfold count_serial. simpl. split; split; intros; auto;
      intuition lia.
  - simpl fold_left. rewrite count_serial_cons.
    unfold noted at 2 4. simpl.
    destruct (bool_decide_reflect (resolved_serial H d ∈ F)) as [Hin | Hout];
      destruct (IH (if bool_decide (resolved_serial H d ∈ F) then F
                    else F ∪ {[resolved_serial H d]})
                   (if bool_decide (resolved_serial H d ∈ F)
                    then D ∪ {[resolved_serial H d]} else D) v) as [IH1 IH2];
      [rewrite bool_decide_eq_true_2 in IH1, IH2 by assumption
      | rewrite bool_decide_eq_false_2 in IH1, IH2 by assumption];
      rewrite IH1, IH2; clear IH1 IH2;
      destruct (decide (resolved_serial H d = v)) as [<- | Hne];
      rewrite ?elem_of_union, ?elem_of_singleton;
      split; split; intros; intuition (try lia; try congruence; auto with lia).
Qed.

End Counting.

(** ** Refreshing and assigning on a stable host *)

Section StableRegistry.

Variable H : Host.
Hypothesis stable_H : stable H.

Lemma lsusb_stable text :
  shell H 0 "lsusb" = Stdout text →
  yields (try_subprocess (subprocess_run H "lsusb")) (λ r, r = Some text).
Proof.
  intros E p. unfold try_subprocess, subprocess_run.
  rewrite (stable_H _ 0%nat), E. eauto.
Qed.

Lemma get_sdr_info_stable self text :
  shell H 0 "lsusb" = Stdout text →
  yields (get_sdr_info H self)
    (λ self',
       distinct H (sdrs self')
       ∧ ∀ v, v ∈ duplicates self' ↔ (1 < count_serial H v (sdrs self'))%nat).
Proof.
  intros E. unfold get_sdr_info.
  eapply yields_bind; [apply (lsusb_stable text E) |]. intros r ->.
  eapply yields_bind; [apply yields_print_err |]. intros _ _.
  eapply yields_bind; [now apply collect_distinct |]. intros found D.
  eapply yields_bind;
    [apply (yields_for_each _ (noted H) (equal_devices H)),
             note_serial_stable, stable_H |].
  intros [[F' D'] found'] [Ea HF]. simpl in Ea, HF.
  apply yields_ret. simpl. split.
  - now apply (distinct_equal H found).
  - intros v. destruct (noted_fold H found ∅ ∅ v) as [_ Hd].
    rewrite <- Ea in Hd. simpl in Hd. rewrite Hd.
    rewrite <- (count_serial_equal H v _ _ HF).
    rewrite !elem_of_empty. intuition.
Qed.

Lemma assign_stable m d :
  yields (assign H m d) (λ r, r.1 = assigned H m d ∧ equal_devices H d r.2).
Proof.
  unfold assign, assigned.
  destruct (String.eqb (_type d) "airspy").
  { eapply yields_bind; [now apply _serial_stable |]. intros r ->.
    apply yields_ret. simpl. split; [reflexivity | apply equal_settled]. }
  destruct (String.eqb (_type d) "rtlsdr");
    [| apply yields_ret; simpl; split; [reflexivity | apply equal_devices_refl]].
  eapply yields_bind; [now apply _serial_stable |]. intros r ->.
  destruct (bool_decide (resolved_serial H d ∈ [Some "1090"; Some "00001090"])).
  { eapply yields_bind; [now apply _serial_stable |]. intros r ->.
    rewrite resolved_settled, settled_settled.
    apply yields_ret. simpl. split; [reflexivity | apply equal_settled]. }
  eapply yields_bind; [now apply _serial_stable |]. intros r ->.
  rewrite resolved_settled, settled_settled.
  destruct (bool_decide (resolved_serial H d ∈ [Some "978"; Some "00000978"])).
  { eapply yields_bind; [now apply _serial_stable |]. intros r ->.
    rewrite resolved_settled, settled_settled.
    apply yields_ret. simpl. split; [reflexivity | apply equal_settled]. }
  apply yields_ret. simpl. split; [reflexivity | apply equal_settled].
Qed.

(** Both roles always have an entry. *)
Lemma assigned_keeps_keys l : ∀ m,
  is_Some (m !! 1090) → is_Some (m !! 978) →
  is_Some (fold_left (assigned H) l m !! 1090)
  ∧ is_Some (fold_left (assigned H) l m !! 978).
Proof.
  induction l as [| d l IH]; intros m K1 K2; simpl; [auto |].
  apply IH; unfold assigned;
    repeat match goal with |- context [if ?c then _ else _] => destruct c end;
    rewrite ?lookup_insert_is_Some; auto.
Qed.

Lemma blank_keys :
  is_Some (blank [1090; 978] !! 1090) ∧ is_Some (blank [1090; 978] !! 978).
Proof. split; eexists; reflexivity. Qed.

Lemma assign_all_stable self :
  yields (assign_all H self)
    (λ r, r.1 = heuristic H (sdrs self)
          ∧ Forall2 (equal_devices H) (sdrs self) (sdrs r.2)
          ∧ duplicates r.2 = duplicates self
          ∧ _last_check r.2 = _last_check self).
Proof.
  unfold assign_all.
  eapply yields_bind;
    [apply (yields_for_each _ (assigned H) (equal_devices H)), assign_stable |].
  intros [m l'] [Em HF]. simpl in Em, HF.
  destruct (assigned_keeps_keys (sdrs self) (blank [1090; 978]))
    as [[v1 K1] [v2 K2]]; try apply blank_keys.
  rewrite <- Em in K1, K2.
  unfold heuristic. rewrite <- Em.
  rewrite (lookup_total_correct _ _ _ K1), (lookup_total_correct _ _ _ K2).
  unfold getitem. rewrite K1, K2.
  remember (sdrs self) as l eqn:El. clear El Em.
  apply yields_bind_ret.
  destruct (truthy v1) eqn:T1; simpl.
  { apply yields_ret. simpl. destruct l as [| d [| d' l]]; auto. }
  apply yields_bind_ret.
  destruct (truthy v2) eqn:T2; simpl.
  { apply yields_ret. simpl. destruct l as [| d [| d' l]]; auto. }
  destruct HF as [| d d1 l l1 Hd Hl]; simpl.
  { apply yields_ret. simpl. auto. }
  destruct Hl as [| d2 d3 l2 l3 Hd2 Hl2]; simpl.
  - eapply yields_bind; [now apply _serial_stable |]. intros r ->.
    apply yields_ret. simpl.
    pose proof Hd as (_ & _ & <-).
    repeat split; auto.
    constructor; [| constructor].
    eapply equal_devices_trans; [exact Hd | apply equal_settled].
  - apply yields_ret. simpl. auto.
Qed.

End StableRegistry.

(** ** Nothing raises, on any host *)

Lemma yields_for_each_inv {A} (body : A → SDR → M (A * SDR)) (I : A → Prop) :
  (∀ a d, I a → yields (body a d) (λ r, I r.1)) →
  ∀ l a, I a → yields (for_each body l a) (λ r, I r.1).
Proof.
  intros Hbody. induction l as [| d l IH]; intros a Ha; simpl.
  - now apply yields_ret.
  - eapply yields_bind; [apply Hbody, Ha |].
    intros [a' d'] Ha'. simpl in Ha'.
    eapply yields_bind; [apply IH, Ha' |].
    intros [a'' l'] Ha''. now apply yields_ret.
Qed.

Section Totality.

Variable H : Host.

Lemma subprocess_caught cmdline :
  yields (try_subprocess (subprocess_run H cmdline)) (λ _, True).
Proof.
  intros p. unfold try_subprocess, subprocess_run.
  destruct (shell H (ticks p) cmdline); eauto.
Qed.

Lemma datetime_now_returns : yields (datetime_now H) (λ _, True).
Proof. intros p. unfold datetime_now. eauto. Qed.

Lemma _json_returns d : yields (_json H d) (λ _, True).
Proof.
  unfold _json. eapply yields_bind; [apply _serial_returns |].
  intros [s d'] _. now apply yields_ret.
Qed.

Lemma json_eq_returns a b : yields (json_eq H a b) (λ _, True).
Proof.
  unfold json_eq. eapply yields_bind; [apply _json_returns |].
  intros [j1 a'] _. eapply yields_bind; [apply _json_returns |].
  intros [j2 b'] _. now apply yields_ret.
Qed.

Lemma list_contains_returns l : ∀ c, yields (list_contains H l c) (λ _, True).
Proof.
  induction l as [| item rest IH]; intros c; simpl.
  - now apply yields_ret.
  - eapply yields_bind; [apply json_eq_returns |].
    intros [[b item'] c'] _. destruct b; [now apply yields_ret |].
    eapply yields_bind; [apply IH |].
    intros [[b' rest'] c''] _. now apply yields_ret.
Qed.

Lemma consider_returns line found pidvid :
  yields (consider H line found pidvid) (λ _, True).
Proof.
  unfold consider.
  destruct (truthy (Some (_get_address_for_pid_vid pidvid line)));
    [| now apply yields_ret].
  eapply yields_bind; [apply yields_print |]. intros _ _.
  eapply yields_bind; [apply list_contains_returns |].
  intros [[present found'] c'] _.
  destruct present; now apply yields_ret.
Qed.

Lemma collect_returns lines : yields (collect H lines) (λ _, True).
Proof.
  unfold collect. apply yields_foldM; [| exact I].
  intros found line _. apply yields_foldM; [| exact I].
  intros found' pidvid _. apply consider_returns.
Qed.

Lemma note_serial_returns a d : yields (note_serial H a d) (λ _, True).
Proof.
  unfold note_serial. destruct a as [F D].
  eapply yields_bind; [apply _serial_returns |]. intros [s d1] _.
  eapply yields_bind; [apply _serial_returns |]. intros [s' d2] _.
  destruct (bool_decide _); now apply yields_ret.
Qed.

Lemma get_sdr_info_returns self : yields (get_sdr_info H self) (λ _, True).
Proof.
  unfold get_sdr_info.
  eapply yields_bind; [apply subprocess_caught |]. intros [text |] _.
  - eapply yields_bind; [apply yields_print_err |]. intros _ _.
    eapply yields_bind; [apply collect_returns |]. intros found _.
    eapply yields_bind;
      [apply (yields_for_each_inv _ (λ _, True)); [| exact I];
       intros a d _; apply (yields_weaken _ _ _ (note_serial_returns a d)); auto |].
    intros [[F D] found'] _. now apply yields_ret.
  - eapply yields_bind; [apply yields_print_err |]. intros _ _.
    now apply yields_ret.
Qed.

Lemma _ensure_populated_returns self :
  yields (_ensure_populated H self) (λ _, True).
Proof.
  unfold _ensure_populated.
  eapply yields_bind; [apply datetime_now_returns |]. intros now _.
  destruct (now - _last_check self <? ttl); [now apply yields_ret |].
  eapply yields_bind; [apply get_sdr_info_returns |]. intros self' _.
  eapply yields_bind; [apply datetime_now_returns |]. intros now' _.
  now apply yields_ret.
Qed.

Lemma assign_keeps_keys m d :
  is_Some (m !! 1090) ∧ is_Some (m !! 978) →
  yields (assign H m d)
    (λ r, is_Some (r.1 !! 1090) ∧ is_Some (r.1 !! 978)).
Proof.
  intros [K1 K2]. unfold assign.
  destruct (String.eqb (_type d) "airspy").
  { eapply yields_bind; [apply _serial_returns |]. intros [s d'] _.
    apply yields_ret. simpl. rewrite !lookup_insert_is_Some. auto. }
  destruct (String.eqb (_type d) "rtlsdr"); [| now apply yields_ret].
  eapply yields_bind; [apply _serial_returns |]. intros [s d1] _.
  destruct (bool_decide _).
  { eapply yields_bind; [apply _serial_returns |]. intros [s' d2] _.
    apply yields_ret. simpl. rewrite !lookup_insert_is_Some. auto. }
  eapply yields_bind; [apply _serial_returns |]. intros [s' d2] _.
  destruct (bool_decide _); [| now apply yields_ret].
  eapply yields_bind; [apply _serial_returns |]. intros [s'' d3] _.
  apply yields_ret. simpl. rewrite !lookup_insert_is_Some. auto.
Qed.

(** The heuristic returns, and its mapping has an entry for both roles. *)
Lemma assign_all_returns self :
  yields (assign_all H self)
    (λ r, is_Some (r.1 !! 1090) ∧ is_Some (r.1 !! 978)).
Proof.
  unfold assign_all.
  eapply yields_bind;
    [apply (yields_for_each_inv _ (λ m, is_Some (m !! 1090) ∧ is_Some (m !! 978)));
     [apply assign_keeps_keys | split; eexists; reflexivity] |].
  intros [m l'] [[v1 K1] [v2 K2]]. simpl in K1, K2.
  unfold getitem. rewrite K1, K2.
  apply yields_bind_ret.
  destruct (negb (truthy v1));
    [| apply yields_ret; simpl; rewrite K1, K2; eauto].
  apply yields_bind_ret.
  destruct (negb (truthy v2)); simpl;
    [| apply yields_ret; simpl; rewrite K1, K2; eauto].
  destruct l' as [| d [| d' l']]; simpl;
    try (apply yields_ret; simpl; rewrite K1, K2; eauto).
  eapply yields_bind; [apply _serial_returns |]. intros [s d1] _.
  apply yields_ret. simpl. rewrite !lookup_insert_is_Some. auto.
Qed.

Lemma addresses_per_frequency_returns self :
  yields (addresses_per_frequency H self)
    (λ r, is_Some (r.1 !! 1090) ∧ is_Some (r.1 !! 978)).
Proof.
  unfold addresses_per_frequency.
  eapply yields_bind; [apply _ensure_populated_returns |]. intros self' _.
  apply assign_all_returns.
Qed.

End Totality.

(** ** The cache and the failure of the listing command *)

Section Registry.

Variable H : Host.

Lemma get_sdr_info_fails self p :
  shell H (ticks p) "lsusb" = Fails →
  get_sdr_info H self p =
    (Returned {| sdrs := []; duplicates := ∅; _last_check := _last_check self |},
     {| ticks := S (ticks p);
        journal := journal p ++ [Ran "lsusb"; ToStderr "lsusb: "] |}).
Proof.
  intros E. unfold get_sdr_info, bind, try_subprocess, subprocess_run.
  rewrite E. simpl. now rewrite <- app_assoc.
Qed.

Lemma ensure_within_ttl self p :
  clock H (ticks p) - _last_check self < ttl →
  _ensure_populated H self p =
    (Returned self, {| ticks := S (ticks p); journal := journal p |}).
Proof.
  intros Hlt. unfold _ensure_populated, bind, datetime_now.
  apply Z.ltb_lt in Hlt. now rewrite Hlt.
Qed.

Lemma ensure_after_ttl self p :
  ttl ≤ clock H (ticks p) - _last_check self →
  _ensure_populated H self p =
    bind (get_sdr_info H self)
         (λ self', now' <- datetime_now H ;;
                   ret {| sdrs := sdrs self'; duplicates := duplicates self';
                          _last_check := now' |})
         {| ticks := S (ticks p); journal := journal p |}.
Proof.
  intros Hge. unfold _ensure_populated at 1, bind at 1, datetime_now at 1.
  apply Z.ltb_ge in Hge. now rewrite Hge.
Qed.

End Registry.

(** ** Claims *)

(** C1 (as the code runs it). On a host that lists an Airspy before an
    RTL-SDR whose serial is 1090, [addresses_per_frequency] gives the 1090
    role to the RTL-SDR: the later rule-2 assignment overwrites the one of
    the Airspy, and the 1090 entry is not the serial of the Airspy. *)
Theorem airspy_overwritten_by_later_rtlsdr :
  ∃ m self' p',
    addresses_per_frequency Bench.airspy_then_rtlsdr SDRDevices_init idle
      = (Returned (m, self'), p')
    ∧ map _type (sdrs self') = ["airspy"; "rtlsdr"]
    ∧ map (resolved_serial Bench.airspy_then_rtlsdr) (sdrs self')
      = [Some "AIRSPY SN:35AC63DC2D8C7A4F"; Some "1090"]
    ∧ m !! 1090 = Some (Some "1090").
Proof.
  eexists _, _, _. split; [vm_compute; reflexivity |].
  repeat split; vm_compute; reflexivity.
Qed.

(** C3 (as the code runs it). The shell cannot run the listing command.
    The call of line 73 has no [check=]: it returns, with an empty stdout,
    and raises nothing, so the handler of line 74 is not entered.
    [get_sdr_info] reads the empty text as a listing: it returns with an
    empty device list and an empty duplicates set, and what it has written
    to stderr is the line that every listing gets, [lsusb: ] with nothing
    after it. The failure is not logged: [lsusb failed] is not written. *)
Theorem unrunnable_listing_is_read_as_empty (H : Host) self p :
  shell H (ticks p) "lsusb" = Fails →
  get_sdr_info H self p =
    (Returned {| sdrs := []; duplicates := ∅; _last_check := _last_check self |},
     {| ticks := S (ticks p);
        journal := journal p ++ [Ran "lsusb"; ToStderr "lsusb: "] |}).
Proof. apply get_sdr_info_fails. Qed.

Lemma unrunnable_listing_is_read_as_empty_witness :
  get_sdr_info Bench.unplugged Bench.stale idle =
    (Returned {| sdrs := []; duplicates := ∅;
                 _last_check := Bench.noon - 60000000 |},
     {| ticks := 1; journal := [Ran "lsusb"; ToStderr "lsusb: "] |}).
Proof.
  apply (unrunnable_listing_is_read_as_empty Bench.unplugged Bench.stale idle).
  reflexivity.
Defined.

(** C4, counterexample. An sdrplay whose descriptor has no iSerial line:
    the first read runs the query and returns the placeholder; the second
    read, on the object the first one left, runs the query again. *)
Lemma placeholder_is_probed_again :
  ∃ d1 p1 p2,
    _serial Bench.silent (SDR_init "sdrplay" "001:005") idle
      = (Returned (Some sdrplay_placeholder, d1), p1)
    ∧ _serial Bench.silent d1 p1 = (Returned (Some sdrplay_placeholder, d1), p2)
    ∧ commands_run p1 = ["lsusb -s 001:005 -v"]
    ∧ commands_run p2 = ["lsusb -s 001:005 -v"; "lsusb -s 001:005 -v"].
Proof.
  eexists _, _, _. split; [vm_compute; reflexivity |].
  split; [vm_compute; reflexivity |].
  split; reflexivity.
Qed.

Lemma commands_run_snoc p cmdline msg :
  commands_run {| ticks := S (ticks p);
                  journal := (journal p ++ [Ran cmdline]) ++ [ToStderr msg] |}
  = (commands_run p ++ [cmdline])%list.
Proof. unfold commands_run. simpl. rewrite !omap_app. simpl. apply app_nil_r. Qed.

(** What a read has done: it has returned the stored serial and left the
    object alone, or it has run the query and returned what the object
    reports once probed with the output. *)
Lemma _serial_cases (H : Host) d p v d' p' :
  _serial H d p = (Returned (v, d'), p') →
  (truthy (_serial_probed d) = true ∧ v = _serial_probed d ∧ d' = d)
  ∨ (truthy (_serial_probed d) = false
     ∧ ∃ out, d' = probed_with out d ∧ v = reported d').
Proof.
  intros E. destruct (truthy (_serial_probed d)) eqn:T.
  - rewrite (_serial_memo H d p T) in E. inversion E. now left.
  - right. split; [reflexivity |].
    destruct (shell H (ticks p) (lsusb_v_cmdline (_address d))) as [out |] eqn:Es.
    + rewrite (_serial_probes H d p out T Es) in E. inversion E. now exists out.
    + rewrite (_serial_fails H d p T Es) in E. inversion E. now exists "".
Qed.

Lemma reprobed (H : Host) d q :
  truthy (_serial_probed d) = false →
  commands_run (snd (_serial H d q))
  = (commands_run q ++ [lsusb_v_cmdline (_address d)])%list.
Proof.
  intros T.
  destruct (shell H (ticks q) (lsusb_v_cmdline (_address d))) as [out |] eqn:Es.
  - rewrite (_serial_probes H d q out T Es). apply commands_run_snoc.
  - rewrite (_serial_fails H d q T Es). apply commands_run_snoc.
Qed.

(** C4, amended. Once a read has produced a non-empty serial (a result
    that is not the placeholder of an sdrplay), that serial is stored on
    the instance, and every later read returns it, leaves the instance as
    it is, and neither runs a command nor prints. A read that has produced
    the empty string or [None] has stored nothing that counts; and whenever
    nothing that counts is stored, as after the placeholder of an sdrplay
    without serial, every later read runs the query command once more. *)
Theorem only_a_found_serial_is_memoized (H : Host) d p v d' p' :
  _serial H d p = (Returned (v, d'), p') →
  (truthy v = true →
   v ≠ Some sdrplay_placeholder ∨ _type d ≠ "sdrplay" →
   _serial_probed d' = v ∧ ∀ q, _serial H d' q = (Returned (v, d'), q))
  ∧ (truthy v = false → truthy (_serial_probed d') = false)
  ∧ (truthy (_serial_probed d') = false →
     ∀ q, commands_run (snd (_serial H d' q))
          = (commands_run q ++ [lsusb_v_cmdline (_address d')])%list).
Proof.
  intros E. apply _serial_cases in E.
  split; [| split].
  - intros Tv Hv.
    assert (Em : _serial_probed d' = v).
    { destruct E as [(T & -> & ->) | (T & out & -> & ->)]; [reflexivity |].
      unfold reported in *.
      destruct (truthy (_serial_probed (probed_with out d))) eqn:T'; simpl in *;
        [reflexivity |].
      destruct (String.eqb_spec (_type d) "sdrplay") as [Et | _].
      - destruct Hv as [Hv | Hv]; [now contradiction Hv | now contradiction Hv].
      - rewrite T' in Tv. discriminate. }
    split; [exact Em |]. intros q. rewrite <- Em in Tv |- *.
    now apply _serial_memo.
  - intros Tv.
    destruct E as [(T & -> & ->) | (T & out & -> & ->)]; [exact Tv |].
    unfold reported in Tv.
    destruct (truthy (_serial_probed (probed_with out d))) eqn:T'; [| reflexivity].
    simpl in Tv, T'. congruence.
  - intros T q. now apply reprobed.
Qed.

Lemma only_a_found_serial_is_memoized_witness :
  _serial_probed
    {| _type := "rtlsdr"; _address := "001:003"; _serial_probed := Some "1090" |}
  = Some "1090"
  ∧ _serial Bench.twins
      {| _type := "rtlsdr"; _address := "001:003"; _serial_probed := Some "1090" |}
      {| ticks := 7; journal := [ToStdout "later"] |}
    = (Returned (Some "1090",
                 {| _type := "rtlsdr"; _address := "001:003";
                    _serial_probed := Some "1090" |}),
       {| ticks := 7; journal := [ToStdout "later"] |}).
Proof.
  destruct (only_a_found_serial_is_memoized
              Bench.twins (SDR_init "rtlsdr" "001:003") idle (Some "1090")
              {| _type := "rtlsdr"; _address := "001:003";
                 _serial_probed := Some "1090" |}
              (snd (_serial Bench.twins (SDR_init "rtlsdr" "001:003") idle)))
    as [Hfound _].
  - vm_compute. reflexivity.
  - destruct (Hfound eq_refl) as [Em Hq]; [left; discriminate |].
    split; [exact Em | apply Hq].
Defined.

Lemma scan_serial_no_match p lines :
  Forall (λ line, serial_match line = None) lines → scan_serial p lines = p.
Proof.
  unfold scan_serial. induction 1 as [| line lines E _ IH]; simpl; [reflexivity |].
  now rewrite E.
Qed.

(** C5 (as the code runs it). A device that has never stored a serial is
    probed, and the output of the query has no line that matches the
    serial pattern: the read returns the placeholder for an sdrplay and,
    for every other type, [None], the initial value of [_serial_probed],
    not the empty string. The object is left as it was. *)
Theorem unmarked_output_reads_as_None (H : Host) d p out :
  _serial_probed d = None →
  shell H (ticks p) (lsusb_v_cmdline (_address d)) = Stdout out →
  Forall (λ line, serial_match line = None) (Text.splitlines out) →
  fst (_serial H d p) =
    Returned (if String.eqb (_type d) "sdrplay"
              then Some sdrplay_placeholder else None, d).
Proof.
  intros E0 Es Hno.
  rewrite (_serial_probes H d p out); [| now rewrite E0 | exact Es].
  unfold reported, probed_with. simpl.
  rewrite (scan_serial_no_match _ _ Hno), E0. simpl.
  destruct d as [t a s]. simpl in *. subst s.
  now destruct (String.eqb t "sdrplay").
Qed.

Lemma unmarked_output_reads_as_None_witness :
  fst (_serial Bench.silent (SDR_init "rtlsdr" "001:003") idle)
  = Returned (None, SDR_init "rtlsdr" "001:003")
  ∧ (None : pyval) ≠ Some "".
Proof.
  split; [| discriminate].
  apply (unmarked_output_reads_as_None
           Bench.silent (SDR_init "rtlsdr" "001:003") idle
           (match Bench.without_serial with Stdout t => t | Fails => "" end)).
  - reflexivity.
  - reflexivity.
  - vm_compute. repeat constructor.
Defined.

(** C6. When the clock reads less than five seconds after the last
    refresh, [_ensure_populated] returns the registry it was given: the
    device list, the duplicates set and the time of the last refresh are
    the same. It has read the clock once, run no command and printed
    nothing, so what is read from the registry afterwards is what was
    there before. *)
Theorem ensure_populated_within_ttl_is_noop (H : Host) self p :
  clock H (ticks p) - _last_check self < ttl →
  _ensure_populated H self p =
    (Returned self, {| ticks := S (ticks p); journal := journal p |})
  ∧ ∀ self' p', _ensure_populated H self p = (Returned self', p') →
      sdrs self' = sdrs self ∧ duplicates self' = duplicates self
      ∧ _last_check self' = _last_check self ∧ journal p' = journal p.
Proof.
  intros Hlt. rewrite (ensure_within_ttl H self p Hlt).
  split; [reflexivity |]. intros self' p' E. now inversion E.
Qed.

Lemma ensure_populated_within_ttl_is_noop_witness :
  _ensure_populated Bench.twins Bench.recent idle =
    (Returned Bench.recent, {| ticks := 1; journal := [] |}).
Proof.
  apply (ensure_populated_within_ttl_is_noop Bench.twins Bench.recent idle).
  reflexivity.
Defined.

(** C10 (as the code runs it). The last refresh is five seconds old or
    more and the shell cannot run the listing command. No exception is
    raised for the handler of line 74 to catch, so the refresh does not
    stop before the stored state: [_ensure_populated] returns with the
    device list and the duplicates set replaced by empty ones, whatever was
    stored, and with the clock read after the listing as the time of the
    last refresh. *)
Theorem unrunnable_listing_empties_the_registry (H : Host) self p :
  ttl ≤ clock H (ticks p) - _last_check self →
  shell H (S (ticks p)) "lsusb" = Fails →
  _ensure_populated H self p =
    (Returned {| sdrs := []; duplicates := ∅;
                 _last_check := clock H (S (S (ticks p))) |},
     {| ticks := S (S (S (ticks p)));
        journal := journal p ++ [Ran "lsusb"; ToStderr "lsusb: "] |}).
Proof.
  intros Hge Es. rewrite (ensure_after_ttl H self p Hge).
  unfold bind at 1. rewrite get_sdr_info_fails by exact Es. reflexivity.
Qed.

Lemma unrunnable_listing_empties_the_registry_witness :
  sdrs Bench.stale = [Bench.rtlsdr_1090]
  ∧ _ensure_populated Bench.unplugged Bench.stale idle =
      (Returned {| sdrs := []; duplicates := ∅;
                   _last_check := Bench.noon + 2000 |},
       {| ticks := 3; journal := [Ran "lsusb"; ToStderr "lsusb: "] |}).
Proof.
  split; [reflexivity |].
  apply (unrunnable_listing_empties_the_registry Bench.unplugged Bench.stale idle).
  - vm_compute. discriminate.
  - reflexivity.
Defined.

Lemma stable_host_with listing verbose t0 :
  stable (Bench.host_with listing verbose t0).
Proof. intros n m cmdline. reflexivity. Qed.

Lemma heuristic_lone (H : Host) d :
  (announces_978 H d →
   heuristic H [d] !! 1090 = Some (Some "")
   ∧ heuristic H [d] !! 978 = Some (resolved_serial H d))
  ∧ (¬ announces_978 H d →
     heuristic H [d] !! 1090 = Some (resolved_serial H d)
     ∧ heuristic H [d] !! 978 = Some (Some "")).
Proof.
  unfold announces_978, heuristic, assigned. simpl.
  destruct (String.eqb_spec (_type d) "airspy") as [Ea | Ea].
  { split; [intros [Et _]; rewrite Ea in Et; discriminate |]. intros _.
    rewrite lookup_total_insert_eq.
    destruct (truthy (resolved_serial H d)); simpl.
    - split; reflexivity.
    - rewrite lookup_total_insert_ne by discriminate.
      split; reflexivity. }
  destruct (String.eqb_spec (_type d) "rtlsdr") as [Et | Et].
  2: { split; [intros [Et' _]; contradiction |]. intros _. split; reflexivity. }
  destruct (bool_decide_reflect
              (resolved_serial H d ∈ [Some "1090"; Some "00001090"])) as [H1 | H1].
  { assert (truthy (resolved_serial H d) = true) as T.
    { apply elem_of_cons in H1 as [-> | H1]; [reflexivity |].
      apply list_elem_of_singleton in H1 as ->. reflexivity. }
    rewrite lookup_total_insert_eq, T. simpl.
    split; [| intros _; split; reflexivity].
    intros [_ [E | E]]; rewrite E in H1;
      apply elem_of_cons in H1 as [? | H1]; try discriminate;
      apply list_elem_of_singleton in H1; discriminate. }
  destruct (bool_decide_reflect
              (resolved_serial H d ∈ [Some "978"; Some "00000978"])) as [H2 | H2].
  { assert (truthy (resolved_serial H d) = true) as T.
    { apply elem_of_cons in H2 as [-> | H2]; [reflexivity |].
      apply list_elem_of_singleton in H2 as ->. reflexivity. }
    rewrite lookup_total_insert_eq, T. simpl.
    rewrite andb_false_r.
    split; [intros _; split; reflexivity |].
    intros Hn. exfalso. apply Hn. split; [exact Et |].
    apply elem_of_cons in H2 as [-> | H2]; [now left |].
    apply list_elem_of_singleton in H2 as ->. now right. }
  simpl. split; [| intros _; split; reflexivity].
  intros [_ [E | E]]; exfalso; apply H2; rewrite E.
  - apply elem_of_cons. now left.
  - apply elem_of_cons. right. now apply list_elem_of_singleton.
Qed.

(** C2, counterexample. The host lists one RTL-SDR, whose serial is 978,
    and nothing is overridden: the registry has exactly that device, the
    1090 role is empty and the 978 role has the serial. *)
Lemma lone_uat_radio_gets_978 :
  ∃ m self' p' d,
    addresses_per_frequency Bench.lone_uat SDRDevices_init idle
      = (Returned (m, self'), p')
    ∧ sdrs self' = [d]
    ∧ resolved_serial Bench.lone_uat d = Some "978"
    ∧ m !! 1090 = Some (Some "")
    ∧ m !! 978 = Some (Some "978")
    ∧ m !! 1090 ≠ Some (resolved_serial Bench.lone_uat d)
    ∧ m !! 978 ≠ Some (Some "").
Proof.
  eexists _, _, _, _. split; [vm_compute; reflexivity |].
  split; [reflexivity |].
  repeat split; try (vm_compute; reflexivity); vm_compute; discriminate.
Qed.

(** C2, amended. On a host whose answers do not change, when the registry
    holds exactly one device once [_ensure_populated] has run,
    [addresses_per_frequency] returns a mapping that gives 1090 the
    resolved serial of that device and 978 the empty string, unless the
    device is an rtlsdr whose serial is 978 or 00000978: then 978 has that
    serial and 1090 the empty string. *)
Theorem lone_device_assignment (H : Host) self p self1 p1 d :
  stable H →
  _ensure_populated H self p = (Returned self1, p1) →
  sdrs self1 = [d] →
  ∃ m self2 p2,
    addresses_per_frequency H self p = (Returned (m, self2), p2)
    ∧ (announces_978 H d →
       m !! 1090 = Some (Some "") ∧ m !! 978 = Some (resolved_serial H d))
    ∧ (¬ announces_978 H d →
       m !! 1090 = Some (resolved_serial H d) ∧ m !! 978 = Some (Some "")).
Proof.
  intros St E1 Ed.
  destruct (assign_all_stable H St self1 p1) as ([m self2] & p2 & E2 & Em & _).
  simpl in Em. exists m, self2, p2. split.
  - unfold addresses_per_frequency. now rewrite (bind_returned _ _ _ _ _ E1).
  - rewrite Em, Ed. apply heuristic_lone.
Qed.

Lemma lone_device_assignment_witness :
  ∃ m self2 p2,
    addresses_per_frequency Bench.silent SDRDevices_init idle
      = (Returned (m, self2), p2)
    ∧ m !! 1090 = Some (resolved_serial Bench.silent (SDR_init "rtlsdr" "001:003"))
    ∧ m !! 978 = Some (Some "").
Proof.
  destruct (lone_device_assignment Bench.silent SDRDevices_init idle
              {| sdrs := [SDR_init "rtlsdr" "001:003"]; duplicates := ∅;
                 _last_check := Bench.noon + 4000 |}
              (snd (_ensure_populated Bench.silent SDRDevices_init idle))
              (SDR_init "rtlsdr" "001:003"))
    as (m & self2 & p2 & E & _ & Hm).
  - apply stable_host_with.
  - vm_compute. reflexivity.
  - reflexivity.
  - exists m, self2, p2. split; [exact E |]. apply Hm.
    intros [_ [A | A]]; vm_compute in A; discriminate.
Defined.

Lemma heuristic_twins (H : Host) a b :
  _type a = "rtlsdr" → _type b = "rtlsdr" →
  resolved_serial H a = Some "1090" → resolved_serial H b = Some "1090" →
  heuristic H [a; b] !! 1090 = Some (Some "1090").
Proof.
  intros Ta Tb Sa Sb. unfold heuristic, assigned. simpl.
  rewrite Ta, Tb, Sa, Sb. reflexivity.
Qed.

(** C7, amended. On a host whose answers do not change, after a refresh
    whose listing command completed, a value is in the duplicates set if
    and only if more than one device of the stored list resolves to it. In
    particular, when the list is two rtlsdr devices that both resolve to
    1090, the set contains 1090 and the heuristic gives the 1090 role the
    one serial 1090. *)
Theorem duplicates_are_the_repeated_serials (H : Host) self p text :
  stable H →
  shell H (ticks p) "lsusb" = Stdout text →
  ∃ self' p',
    get_sdr_info H self p = (Returned self', p')
    ∧ (∀ v, v ∈ duplicates self' ↔ (1 < count_serial H v (sdrs self'))%nat)
    ∧ (∀ a b,
         sdrs self' = [a; b] →
         _type a = "rtlsdr" → _type b = "rtlsdr" →
         resolved_serial H a = Some "1090" →
         resolved_serial H b = Some "1090" →
         Some "1090" ∈ duplicates self'
         ∧ ∃ m self'' p'',
             assign_all H self' p' = (Returned (m, self''), p'')
             ∧ m !! 1090 = Some (Some "1090")).
Proof.
  intros St Es. rewrite (St _ 0%nat) in Es.
  destruct (get_sdr_info_stable H St self text Es p) as (self' & p' & E & _ & Hd).
  exists self', p'. split; [exact E |]. split; [exact Hd |].
  intros a b El Ta Tb Sa Sb. split.
  - apply Hd. rewrite El, !count_serial_cons.
    rewrite !decide_True by assumption. lia.
  - destruct (assign_all_stable H St self' p') as ([m self''] & p'' & E' & Em & _).
    simpl in Em. exists m, self'', p''. split; [exact E' |].
    rewrite Em, El. now apply heuristic_twins.
Qed.

Lemma duplicates_are_the_repeated_serials_witness :
  ∃ self' p',
    get_sdr_info Bench.twins SDRDevices_init idle = (Returned self', p')
    ∧ Some "1090" ∈ duplicates self'
    ∧ (Some "978" : pyval) ∉ duplicates self'.
Proof.
  destruct (duplicates_are_the_repeated_serials
              Bench.twins SDRDevices_init idle
              (Bench.hub_line +:+ Bench.rtlsdr_line "001:003"
               +:+ Bench.rtlsdr_line "001:004"))
    as (self' & p' & E & Hd & _).
  - apply stable_host_with.
  - reflexivity.
  - exists self', p'. split; [exact E |].
    assert (E' : get_sdr_info Bench.twins SDRDevices_init idle
                 = (Returned self', p')) by exact E.
    vm_compute in E'. injection E' as Es _. clear E.
    split.
    + apply Hd. rewrite <- Es. vm_compute. lia.
    + intros Hin. apply Hd in Hin. rewrite <- Es in Hin.
      vm_compute in Hin. lia.
Defined.

(** C7, counterexample. Two RTL-SDRs whose descriptors have no iSerial
    line, until the one at 001:004 shows the serial X. The second loop of
    [get_sdr_info] reads the serial of a device twice, for the test of
    line 104 and for the [add] of line 105 or 107: the first read of the
    device at 001:004 gives [None], which the device at 001:003 has given
    before, and the second gives X. After the refresh X is in the
    duplicates set, and one device only of the stored list has it. *)
Lemma late_serial_is_taken_for_repeated :
  ∃ self' p',
    get_sdr_info Bench.late_serial SDRDevices_init idle = (Returned self', p')
    ∧ Some "X" ∈ duplicates self'
    ∧ map _address (sdrs self') = ["001:003"; "001:004"]
    ∧ map _serial_probed (sdrs self') = [None; Some "X"]
    ∧ count_serial Bench.late_serial (Some "X") (sdrs self') = 1%nat.
Proof.
  eexists _, _. split; [vm_compute; reflexivity |].
  repeat split; vm_compute; reflexivity.
Qed.

(** C8, amended. On a host whose answers do not change, whatever text the
    listing command prints, [get_sdr_info] returns and no two devices of the list
    it stores are equal; [SDR.__eq__] answers true for two devices exactly
    when their types, their addresses and their resolved serials are
    equal, and false for anything that is not a device. *)
Theorem enumerated_devices_are_distinct (H : Host) self p text :
  stable H →
  shell H (ticks p) "lsusb" = Stdout text →
  (∃ self' p',
     get_sdr_info H self p = (Returned self', p') ∧ distinct H (sdrs self'))
  ∧ (∀ a b q, ∃ ok a' b' q',
       __eq__ H a (AnSDR b) q = (Returned (ok, a', AnSDR b'), q')
       ∧ (ok = true ↔ equal_devices H a b))
  ∧ (∀ a other q,
       (∀ b, other ≠ AnSDR b) →
       __eq__ H a other q = (Returned (false, a, other), q)).
Proof.
  intros St Es. rewrite (St _ 0%nat) in Es. split; [| split].
  - destruct (get_sdr_info_stable H St self text Es p) as (self' & p' & E & D & _).
    eauto.
  - intros a b q.
    destruct (json_eq_stable H St a b q) as ([[ok a'] b'] & q' & E & Hok & _).
    exists ok, a', b', q'. split; [| exact Hok].
    unfold __eq__. now rewrite (bind_returned _ _ _ _ _ E).
  - intros a other q Hother.
    destruct other as [b | | s | n]; try reflexivity.
    now destruct (Hother b).
Qed.

Lemma enumerated_devices_are_distinct_witness :
  ∃ self' p',
    get_sdr_info Bench.twins Bench.stale idle = (Returned self', p')
    ∧ distinct Bench.twins (sdrs self').
Proof.
  apply (enumerated_devices_are_distinct
           Bench.twins Bench.stale idle
           (Bench.hub_line +:+ Bench.rtlsdr_line "001:003"
            +:+ Bench.rtlsdr_line "001:004")).
  - apply stable_host_with.
  - reflexivity.
Defined.

(** C8, counterexample. A listing that shows the RTL-SDR at 001:003 on
    two lines, and a descriptor that has no iSerial line when the second
    candidate is read for the test of line 99 and has the serial 1090 from
    then on: the candidate is not equal to the device stored for the first
    line, whose serial is read next, and is appended. After the refresh the
    list holds two devices of the same type, address and serial. *)
Lemma changing_descriptor_is_stored_twice :
  ∃ self' p',
    get_sdr_info Bench.slow_descriptor SDRDevices_init idle = (Returned self', p')
    ∧ sdrs self' = [Bench.rtlsdr_1090; Bench.rtlsdr_1090]
    ∧ ¬ distinct Bench.slow_descriptor (sdrs self').
Proof.
  eexists _, _. split; [vm_compute; reflexivity |].
  split; [vm_compute; reflexivity |].
  intros D.
  apply (D 0%nat 1%nat Bench.rtlsdr_1090 Bench.rtlsdr_1090);
    [discriminate | reflexivity | reflexivity |].
  repeat split.
Qed.

(** ** Stored serials override the heuristic *)

Section Overrides.

Variable env_by_tags : string → option Env.

Lemma override_stored guess freq s :
  env_by_tags (pretty freq +:+ "serial") = Some {| value := Some s |} →
  s ≠ "" →
  override env_by_tags guess freq = <[freq := Some s]> guess.
Proof.
  intros E Hs. unfold override. rewrite E. simpl.
  rewrite bool_decide_eq_true_2; [reflexivity | congruence].
Qed.

Lemma override_nothing guess freq :
  env_by_tags (pretty freq +:+ "serial") = None
  ∨ env_by_tags (pretty freq +:+ "serial") = Some {| value := Some "" |} →
  override env_by_tags guess freq = guess.
Proof.
  intros [E | E]; unfold override; rewrite E; reflexivity.
Qed.

Lemma override_other guess freq freq' :
  freq ≠ freq' →
  override env_by_tags guess freq !! freq' = guess !! freq'.
Proof.
  intros Hne. unfold override.
  destruct (env_by_tags _) as [setting |]; [| reflexivity].
  destruct (bool_decide _); [| reflexivity].
  now rewrite lookup_insert_ne.
Qed.

End Overrides.

(** C9, amended. [sdr_info] returns the mapping of
    [addresses_per_frequency] with the stored serials written over it: for
    each of the roles 1090 and 978, when the configuration has a setting
    for the role whose value is a non-empty string, the entry of the role
    is that string, whatever the heuristic had; when it has no setting for
    the role, or one whose value is the empty string, the entry is the one
    of the heuristic; and when it has a setting whose value is [None],
    which is not the empty string, the entry is [None]. *)
Theorem stored_serial_overrides_heuristic
        (H : Host) (env_by_tags : string → option Env)
        self p self1 p1 guess self2 p2 :
  _ensure_populated H self p = (Returned self1, p1) →
  addresses_per_frequency H self1 p1 = (Returned (guess, self2), p2) →
  ∃ out self3 p3,
    sdr_info H env_by_tags self p = (Returned (out, self3), p3)
    ∧ (∀ s, env_by_tags "1090serial" = Some {| value := Some s |} → s ≠ "" →
            frequencies out !! 1090 = Some (Some s))
    ∧ (∀ s, env_by_tags "978serial" = Some {| value := Some s |} → s ≠ "" →
            frequencies out !! 978 = Some (Some s))
    ∧ (env_by_tags "1090serial" = None
       ∨ env_by_tags "1090serial" = Some {| value := Some "" |} →
       frequencies out !! 1090 = guess !! 1090)
    ∧ (env_by_tags "978serial" = None
       ∨ env_by_tags "978serial" = Some {| value := Some "" |} →
       frequencies out !! 978 = guess !! 978)
    ∧ (env_by_tags "1090serial" = Some {| value := None |} →
       frequencies out !! 1090 = Some None)
    ∧ (env_by_tags "978serial" = Some {| value := None |} →
       frequencies out !! 978 = Some None).
Proof.
  intros E1 E2.
  destruct (yields_for_each_inv
              (λ js sdr, r <- _json H sdr ;;
                         let '(j, sdr') := r in ret ((js ++ [j])%list, sdr'))
              (λ _, True)) with (l := sdrs self2) (a := @nil (gmap string pyval))
                                (p := p2)
    as ([js sdrs3] & p3 & E3 & _).
  { intros js d _. eapply yields_bind; [apply _json_returns |].
    intros [j d'] _. now apply yields_ret. }
  { exact I. }
  eexists _, _, p3. split.
  - unfold sdr_info.
    rewrite (bind_returned _ _ _ _ _ E1), (bind_returned _ _ _ _ _ E2).
    rewrite (bind_returned _ _ _ _ _ E3). reflexivity.
  - simpl. repeat split.
    + intros s E Hs. rewrite override_other by discriminate.
      rewrite (override_stored _ _ 1090 s E Hs). apply lookup_insert_eq.
    + intros s E Hs.
      rewrite (override_stored _ _ 978 s E Hs). apply lookup_insert_eq.
    + intros E. rewrite override_other by discriminate.
      now rewrite (override_nothing _ _ 1090 E).
    + intros E. rewrite (override_nothing _ _ 978 E).
      now apply override_other.
    + intros E. rewrite override_other by discriminate.
      unfold override.
      change (pretty 1090 +:+ "serial") with "1090serial". rewrite E.
      simpl. apply lookup_insert_eq.
    + intros E. unfold override at 1.
      change (pretty 978 +:+ "serial") with "978serial". rewrite E.
      simpl. apply lookup_insert_eq.
Qed.

Lemma stored_serial_overrides_heuristic_witness :
  ∃ out self3 p3,
    sdr_info Bench.twins Bench.stored_uat Bench.recent idle
      = (Returned (out, self3), p3)
    ∧ frequencies out !! 978 = Some (Some "AA11")
    ∧ frequencies out !! 1090 = Some (Some "1090").
Proof.
  destruct (stored_serial_overrides_heuristic
              Bench.twins Bench.stored_uat Bench.recent idle
              Bench.recent {| ticks := 1; journal := [] |}
              (<[1090 := Some "1090"]> (blank [1090; 978]))
              Bench.recent {| ticks := 2; journal := [] |})
    as (out & self3 & p3 & E & _ & H978 & H1090 & _).
  - reflexivity.
  - vm_compute. reflexivity.
  - exists out, self3, p3. split; [exact E |]. split.
    + apply H978; [reflexivity | discriminate].
    + rewrite H1090; [reflexivity | now right].
Defined.

(** C9, counterexample. The heuristic gives the 1090 role the serial 1090
    of the stored RTL-SDR; the configuration has a setting for 1090, and
    its value is [None], as of a setting that was never given a value:
    [sdr_info] hands the role over as [None], not as the serial of the
    heuristic. *)
Lemma unset_setting_erases_the_heuristic :
  ∃ guess self2 p2 out self3 p3,
    addresses_per_frequency Bench.twins Bench.recent
      {| ticks := 1; journal := [] |}
      = (Returned (guess, self2), p2)
    ∧ sdr_info Bench.twins Bench.unset_1090 Bench.recent idle
      = (Returned (out, self3), p3)
    ∧ Bench.unset_1090 "1090serial" = Some {| value := None |}
    ∧ guess !! 1090 = Some (Some "1090")
    ∧ frequencies out !! 1090 = Some None.
Proof.
  eexists _, _, _, _, _, _. split; [vm_compute; reflexivity |].
  split; [vm_compute; reflexivity |].
  split; [reflexivity |]. split; vm_compute; reflexivity.
Qed.

(** * Further properties *)

(** ** Patterns *)

Section Patterns.

Lemma string_app_assoc (a b c : string) : (a +:+ b) +:+ c = a +:+ (b +:+ c).
Proof.
  induction a as [| x a IH]; [reflexivity |].
  exact (f_equal (String x) IH).
Qed.

Lemma option_bind_Some {A B} (x : A) (f : A → option B) : (Some x ≫= f) = f x.
Proof. reflexivity. Qed.

Lemma literal_app lit s : Text.literal lit (lit +:+ s) = Some s.
Proof.
  induction lit as [| c lit IH]; simpl; [now destruct s |].
  now rewrite Ascii.eqb_refl.
Qed.

Lemma literal_Some lit : ∀ s r, Text.literal lit s = Some r → s = lit +:+ r.
Proof.
  induction lit as [| c lit IH]; intros s r E; simpl in *.
  - destruct s; now inversion E.
  - destruct s as [| c' s]; [discriminate |].
    destruct (Ascii.eqb_spec c c') as [-> | _]; [| discriminate].
    now rewrite (IH _ _ E).
Qed.

Lemma span_Some p : ∀ s a b,
  Text.span p s = (a, b) → s = a +:+ b ∧ every p a = true.
Proof.
  induction s as [| c s IH]; intros a b E; simpl in E.
  - inversion E. auto.
  - destruct (p c) eqn:Pc.
    + destruct (Text.span p s) as [a' b'] eqn:Es. inversion E; subst.
      destruct (IH _ _ eq_refl) as [-> Ha]. simpl. now rewrite Pc, Ha.
    + inversion E. auto.
Qed.

(** A run of [p] characters is taken whole when the text that follows it
    does not start with one. *)
Lemma span_run p a : ∀ b,
  every p a = true →
  match b with String c _ => p c = false | EmptyString => True end →
  Text.span p (a +:+ b) = (a, b).
Proof.
  induction a as [| c a IH]; intros b Ha Hb; simpl in *.
  - destruct b as [| c b]; [reflexivity |]. simpl. now rewrite Hb.
  - apply andb_prop in Ha as [Pc Ha]. rewrite Pc. now rewrite IH.
Qed.

Lemma plus_run p a b :
  a ≠ "" → every p a = true →
  match b with String c _ => p c = false | EmptyString => True end →
  Text.plus p (a +:+ b) = Some (a, b).
Proof.
  intros Hne Ha Hb. unfold Text.plus. rewrite span_run by assumption.
  destruct a; [contradiction | reflexivity].
Qed.

Lemma plus_Some p s a b :
  Text.plus p s = Some (a, b) → a ≠ "" ∧ every p a = true ∧ s = a +:+ b.
Proof.
  unfold Text.plus. destruct (Text.span p s) as [a' b'] eqn:E.
  destruct a'; [discriminate |]. intros [= <- <-].
  destruct (span_Some _ _ _ _ E) as [-> Ha]. auto.
Qed.

Lemma re_search_here {A} (here : string → option A) s g :
  here s = Some g → Text.re_search here s = Some g.
Proof. intros E. destruct s; simpl; now rewrite E. Qed.

Lemma re_search_Some {A} (here : string → option A) : ∀ s g,
  Text.re_search here s = Some g → ∃ pre suf, s = pre +:+ suf ∧ here suf = Some g.
Proof.
  induction s as [| c s IH]; intros g E; simpl in E.
  - destruct (here "") eqn:E0; [| discriminate]. exists "", "". now inversion E; subst.
  - destruct (here (String c s)) eqn:E0.
    + exists "", (String c s). now inversion E; subst.
    + destruct (IH _ E) as (pre & suf & -> & Es). now exists (String c pre), suf.
Qed.

Lemma re_search_None {A} (here : string → option A) : ∀ s,
  (∀ pre suf, s = pre +:+ suf → here suf = None) → Text.re_search here s = None.
Proof.
  induction s as [| c s IH]; intros Hno; simpl.
  - now rewrite (Hno "" "" eq_refl).
  - rewrite (Hno "" (String c s) eq_refl). apply IH.
    intros pre suf ->. now apply (Hno (String c pre) suf).
Qed.

End Patterns.

(** ** The address of a listed device *)

(** X1. For each of the six identifiers that [get_sdr_info] asks for, a
    line of the listing that starts with the bus and device numbers of a
    device with that identifier gives the address made of those two
    numbers, upper or lower case, whatever follows the identifier on the
    line. *)
Theorem address_of_listing_line pidvid bus dev rest :
  pidvid ∈ pidvids →
  bus ≠ "" → dev ≠ "" →
  every Text.ishex bus = true → every Text.ishex dev = true →
  _get_address_for_pid_vid pidvid
    ("Bus " +:+ bus +:+ " Device " +:+ dev +:+ ": ID " +:+ pidvid +:+ rest)
  = bus +:+ ":" +:+ dev.
Proof.
  intros _ Hb Hd Xb Xd. unfold _get_address_for_pid_vid.
  rewrite (re_search_here _ _ (bus, dev)); [reflexivity |].
  unfold bus_device_here.
  rewrite literal_app, option_bind_Some. cbv beta.
  rewrite (plus_run _ bus (" Device " +:+ dev +:+ ": ID " +:+ pidvid +:+ rest))
    by (auto; reflexivity).
  rewrite option_bind_Some. cbv beta iota.
  rewrite literal_app, option_bind_Some. cbv beta.
  rewrite (plus_run _ dev (": ID " +:+ pidvid +:+ rest)) by (auto; reflexivity).
  rewrite option_bind_Some. cbv beta iota.
  replace (": ID " +:+ pidvid +:+ rest) with ((": ID " +:+ pidvid) +:+ rest)
    by apply string_app_assoc.
  now rewrite literal_app.
Qed.

Lemma address_of_listing_line_witness :
  _get_address_for_pid_vid "0bda:2838"
    "Bus 001 Device 00A: ID 0bda:2838 Realtek Semiconductor Corp. RTL2838 DVB-T"
  = "001:00A".
Proof.
  apply (address_of_listing_line "0bda:2838" "001" "00A"
           " Realtek Semiconductor Corp. RTL2838 DVB-T");
    solve [discriminate | reflexivity | unfold pidvids; rewrite !elem_of_cons; auto].
Defined.

Lemma address_shape pidvid line :
  _get_address_for_pid_vid pidvid line = ""
  ∨ ∃ bus dev before rest,
      _get_address_for_pid_vid pidvid line = bus +:+ ":" +:+ dev
      ∧ bus ≠ "" ∧ dev ≠ ""
      ∧ every Text.ishex bus = true ∧ every Text.ishex dev = true
      ∧ line = before +:+ "Bus " +:+ bus +:+ " Device " +:+ dev
                      +:+ ": ID " +:+ pidvid +:+ rest.
Proof.
  unfold _get_address_for_pid_vid.
  destruct (Text.re_search (bus_device_here pidvid) line) as [[bus dev] |] eqn:E;
    [right | now left].
  apply re_search_Some in E as (before & suf & -> & E).
  unfold bus_device_here in E.
  destruct (Text.literal "Bus " suf) as [r1 |] eqn:E1; [| discriminate].
  rewrite option_bind_Some in E. cbv beta in E.
  destruct (Text.plus Text.ishex r1) as [[b r2] |] eqn:E2; [| discriminate].
  rewrite option_bind_Some in E. cbv beta iota in E.
  destruct (Text.literal " Device " r2) as [r3 |] eqn:E3; [| discriminate].
  rewrite option_bind_Some in E. cbv beta in E.
  destruct (Text.plus Text.ishex r3) as [[d r4] |] eqn:E4; [| discriminate].
  rewrite option_bind_Some in E. cbv beta iota in E.
  destruct (Text.literal (": ID " +:+ pidvid) r4) as [r5 |] eqn:E5; [| discriminate].
  rewrite option_bind_Some in E. inversion E; subst b d. clear E.
  apply literal_Some in E1, E3, E5.
  apply plus_Some in E2 as (Hb & Xb & E2), E4 as (Hd & Xd & E4).
  exists bus, dev, before, r5. repeat split; auto.
  rewrite E1, E2, E3, E4, E5. now rewrite string_app_assoc.
Qed.

(** X2. For each of the six identifiers that [get_sdr_info] asks for and
    whatever the line, the address found is empty, which is how no match
    is told, or two non-empty runs of hexadecimal digits around one colon
    that the line has after the words Bus and Device, before the
    identifier. *)
Theorem address_is_empty_or_two_hex_numbers pidvid line :
  pidvid ∈ pidvids →
  _get_address_for_pid_vid pidvid line = ""
  ∨ ∃ bus dev before rest,
      _get_address_for_pid_vid pidvid line = bus +:+ ":" +:+ dev
      ∧ bus ≠ "" ∧ dev ≠ ""
      ∧ every Text.ishex bus = true ∧ every Text.ishex dev = true
      ∧ line = before +:+ "Bus " +:+ bus +:+ " Device " +:+ dev
                      +:+ ": ID " +:+ pidvid +:+ rest.
Proof. intros _. apply address_shape. Qed.

Lemma address_is_empty_or_two_hex_numbers_witness :
  _get_address_for_pid_vid "1df7:3000" "Bus 001 Device 005: ID 1df7:3000 SDRplay RSPdx" = ""
  ∨ ∃ bus dev before rest,
      _get_address_for_pid_vid "1df7:3000" "Bus 001 Device 005: ID 1df7:3000 SDRplay RSPdx"
      = bus +:+ ":" +:+ dev
      ∧ bus ≠ "" ∧ dev ≠ ""
      ∧ every Text.ishex bus = true ∧ every Text.ishex dev = true
      ∧ "Bus 001 Device 005: ID 1df7:3000 SDRplay RSPdx"
        = before +:+ "Bus " +:+ bus +:+ " Device " +:+ dev
                 +:+ ": ID " +:+ "1df7:3000" +:+ rest.
Proof.
  apply (address_is_empty_or_two_hex_numbers
           "1df7:3000" "Bus 001 Device 005: ID 1df7:3000 SDRplay RSPdx").
  unfold pidvids. rewrite !elem_of_cons. auto 10.
Defined.

(** ** What the enumeration stores, on any host *)

Lemma yields_foldM_seen {A B} (body : A → B → M A) (I : list B → A → Prop) :
  (∀ seen a x, I seen a → yields (body a x) (I (seen ++ [x])%list)) →
  ∀ xs seen a, I seen a → yields (foldM body xs a) (I (seen ++ xs)%list).
Proof.
  intros Hbody. induction xs as [| x xs IH]; intros seen a Ha; simpl.
  - rewrite app_nil_r. now apply yields_ret.
  - eapply yields_bind; [apply Hbody, Ha |]. intros a' Ha'.
    replace (seen ++ x :: xs)%list with ((seen ++ [x]) ++ xs)%list
      by (now rewrite <- app_assoc).
    now apply IH.
Qed.

Lemma yields_for_each_rel {A} (body : A → SDR → M (A * SDR))
      (R : SDR → SDR → Prop) :
  (∀ a d, yields (body a d) (λ r, R d r.2)) →
  ∀ l a, yields (for_each body l a) (λ r, Forall2 R l r.2).
Proof.
  intros Hbody. induction l as [| d l IH]; intros a; simpl.
  - apply yields_ret. constructor.
  - eapply yields_bind; [apply Hbody |]. intros [a' d'] Hd. simpl in Hd.
    eapply yields_bind; [apply IH |]. intros [a'' l'] Hl. simpl in Hl.
    apply yields_ret. now constructor.
Qed.

Section Identity.

Variable H : Host.

Lemma same_identity_refl a : same_identity a a.
Proof. now split. Qed.

Lemma same_identity_trans a b c :
  same_identity a b → same_identity b c → same_identity a c.
Proof. unfold same_identity. intros [? ?] [? ?]. split; congruence. Qed.

Lemma holds_same l l' t a :
  Forall2 same_identity l l' → holds l t a ↔ holds l' t a.
Proof.
  intros F. split; intros (d & Hd & <- & <-).
  - apply list_elem_of_lookup in Hd as [i Hi].
    destruct (Forall2_lookup_l _ _ _ _ _ F Hi) as (d' & Hi' & [Et Ea]).
    exists d'. split; [eapply list_elem_of_lookup_2, Hi' | auto].
  - apply list_elem_of_lookup in Hd as [i Hi].
    destruct (Forall2_lookup_r _ _ _ _ _ F Hi) as (d' & Hi' & [Et Ea]).
    exists d'. split; [eapply list_elem_of_lookup_2, Hi' | auto].
Qed.

(** A read leaves the type and the address of the object alone. *)
Lemma _serial_identity d : yields (_serial H d) (λ r, same_identity d r.2).
Proof.
  intros p. destruct (truthy (_serial_probed d)) eqn:T.
  - rewrite (_serial_memo H d p T). eexists _, _. split; [reflexivity |].
    apply same_identity_refl.
  - destruct (shell H (ticks p) (lsusb_v_cmdline (_address d))) as [out |] eqn:E.
    + rewrite (_serial_probes H d p out T E). eexists _, _.
      split; [reflexivity |]. now split.
    + rewrite (_serial_fails H d p T E). eexists _, _.
      split; [reflexivity |]. now split.
Qed.

Lemma _json_identity d :
  yields (_json H d)
    (λ r, same_identity d r.2
          ∧ ∃ s, r.1 = <["serial" := s]>
                         (<["address" := Some (_address d)]>
                            (<["type" := Some (_type d)]> ∅))).
Proof.
  unfold _json.
  eapply yields_bind; [apply _serial_identity |]. intros [s d'] [Et Ea].
  simpl in Et, Ea. apply yields_ret. simpl. split; [now split |].
  exists s. now rewrite Et, Ea.
Qed.

Lemma json_eq_identity a b :
  yields (json_eq H a b)
    (λ r, same_identity a r.1.2 ∧ same_identity b r.2
          ∧ (r.1.1 = true → same_identity a b)).
Proof.
  unfold json_eq.
  eapply yields_bind; [apply _json_identity |].
  intros [j1 a'] [Ha [s1 E1]]. simpl in Ha, E1.
  eapply yields_bind; [apply _json_identity |].
  intros [j2 b'] [Hb [s2 E2]]. simpl in Hb, E2.
  apply yields_ret. simpl. split; [exact Ha |]. split; [exact Hb |].
  intros E. apply bool_decide_eq_true in E. subst j1 j2.
  apply json_agree in E. unfold same_identity. tauto.
Qed.

Lemma list_contains_identity l : ∀ c,
  yields (list_contains H l c)
    (λ r, Forall2 same_identity l r.1.2 ∧ same_identity c r.2
          ∧ (r.1.1 = true → holds l (_type c) (_address c))).
Proof.
  induction l as [| item rest IH]; intros c; simpl.
  - apply yields_ret. simpl. repeat split; [constructor | discriminate].
  - eapply yields_bind; [apply json_eq_identity |].
    intros [[b item'] c'] (Hi & Hc & Hb). simpl in Hi, Hc, Hb.
    destruct b.
    + apply yields_ret. simpl. split; [| split; [exact Hc |]].
      * constructor; [exact Hi |]. clear. induction rest; constructor; auto.
        apply same_identity_refl.
      * intros _. destruct (Hb eq_refl) as [Et Ea].
        exists item. split; [apply elem_of_cons; now left | auto].
    + eapply yields_bind; [apply IH |].
      intros [[b' rest'] c''] (Hr & Hc' & Hb'). simpl in Hr, Hc', Hb'.
      apply yields_ret. simpl. split; [| split].
      * now constructor.
      * eapply same_identity_trans; eassumption.
      * intros E. destruct (Hb' E) as (d & Hd & Et & Ea).
        destruct Hc as [Et' Ea'].
        exists d. split; [apply elem_of_cons; now right |]. split; congruence.
Qed.

Lemma candidate_kind pidvid address :
  _type (if Text.startswith pidvid "1df7" then SDR_init "sdrplay" address
         else if String.eqb pidvid "1d50:60a1" then SDR_init "airspy" address
         else SDR_init "rtlsdr" address) = kind_of_pidvid pidvid
  ∧ _address (if Text.startswith pidvid "1df7" then SDR_init "sdrplay" address
              else if String.eqb pidvid "1d50:60a1" then SDR_init "airspy" address
              else SDR_init "rtlsdr" address) = address.
Proof.
  unfold kind_of_pidvid.
  destruct (Text.startswith pidvid "1df7"); [now split |].
  destruct (String.eqb pidvid "1d50:60a1"); now split.
Qed.

Lemma truthy_address a : truthy (Some a) = true ↔ a ≠ "".
Proof. destruct a; simpl; split; intros; congruence. Qed.

Lemma consider_holds line found pidvid :
  yields (consider H line found pidvid)
    (λ found', ∀ t a,
       holds found' t a ↔
       holds found t a
       ∨ (_get_address_for_pid_vid pidvid line = a ∧ a ≠ ""
          ∧ kind_of_pidvid pidvid = t)).
Proof.
  unfold consider.
  destruct (truthy (Some (_get_address_for_pid_vid pidvid line))) eqn:T.
  2: { apply yields_ret. intros t a. split; [auto |].
       intros [Hh | (E & Hne & _)]; [exact Hh |].
       apply truthy_address in Hne. rewrite E in T. congruence. }
  apply truthy_address in T.
  eapply yields_bind; [apply yields_print |]. intros _ _.
  eapply yields_bind; [apply list_contains_identity |].
  intros [[present found'] c'] (HF & [Tc Ac] & Hp). simpl in HF, Tc, Ac, Hp.
  destruct (candidate_kind pidvid (_get_address_for_pid_vid pidvid line))
    as [Ek Ea].
  rewrite Ek in Tc, Hp. rewrite Ea in Ac, Hp.
  destruct present; simpl; apply yields_ret; intros t a;
    rewrite (holds_same _ _ t a HF).
  - split; [auto |]. intros [Hh | (<- & _ & <-)]; [exact Hh |].
    apply (holds_same _ _ _ _ HF). now apply Hp.
  - split.
    + intros (d & Hd & Et & Ead). apply elem_of_app in Hd as [Hd | Hd].
      * left. now exists d.
      * apply list_elem_of_singleton in Hd as ->. right.
        repeat split; congruence.
    + intros [(d & Hd & Hta) | (<- & _ & <-)].
      * exists d. split; [apply elem_of_app; now left | exact Hta].
      * exists c'. split; [apply elem_of_app; right; now apply list_elem_of_singleton |].
        now split.
Qed.

(** The first loop of [get_sdr_info] collects the listed devices, all of
    them and nothing else. *)
Lemma collect_holds text :
  yields (collect H (Text.readlines text))
    (λ found, ∀ t a, holds found t a ↔ listed text t a).
Proof.
  unfold collect.
  pose (I := λ (seen : list string) (found : list SDR),
          ∀ t a, holds found t a ↔
                 ∃ line pidvid, line ∈ seen ∧ pidvid ∈ pidvids
                   ∧ _get_address_for_pid_vid pidvid line = a ∧ a ≠ ""
                   ∧ kind_of_pidvid pidvid = t).
  apply (yields_foldM_seen _ I) with (seen := []) (xs := Text.readlines text).
  - intros seen found line HI.
    pose (J := λ (ids : list string) (found' : list SDR),
            ∀ t a, holds found' t a ↔
                   holds found t a
                   ∨ ∃ pidvid, pidvid ∈ ids
                       ∧ _get_address_for_pid_vid pidvid line = a ∧ a ≠ ""
                       ∧ kind_of_pidvid pidvid = t).
    eapply yields_weaken;
      [apply (yields_foldM_seen _ J) with (seen := []) (xs := pidvids) |].
    + intros ids found' pidvid HJ.
      eapply yields_weaken; [apply consider_holds |].
      intros found'' Hc. unfold J in *. cbv beta in Hc. intros t a.
      rewrite Hc, (HJ t a). split.
      * intros [[Hh | (id & Hid & Hrest)] | Hnew]; [now left | |].
        -- right. exists id. split; [apply elem_of_app; now left | exact Hrest].
        -- right. exists pidvid.
           split; [apply elem_of_app; right; now apply list_elem_of_singleton |].
           exact Hnew.
      * intros [Hh | (id & Hid & Hrest)]; [now left; left |].
        apply elem_of_app in Hid as [Hid | Hid].
        -- left. right. now exists id.
        -- apply list_elem_of_singleton in Hid as ->. now right.
    + unfold J. intros t a. split; [now left |].
      intros [Hh | (id & Hid & _)]; [exact Hh | now apply elem_of_nil in Hid].
    + intros found' HJ. unfold I, J in *. simpl in HJ. intros t a.
      rewrite (HJ t a), (HI t a). split.
      * intros [(l & id & Hl & Hrest) | (id & Hid & Hrest)].
        -- exists l, id. split; [apply elem_of_app; now left | exact Hrest].
        -- exists line, id.
           split; [apply elem_of_app; right; now apply list_elem_of_singleton |].
           now split.
      * intros (l & id & Hl & Hid & Hrest).
        apply elem_of_app in Hl as [Hl | Hl].
        -- left. now exists l, id.
        -- apply list_elem_of_singleton in Hl as ->. right. now exists id.
  - unfold I. intros t a. split.
    + intros (d & Hd & _). now apply elem_of_nil in Hd.
    + intros (l & _ & Hl & _). now apply elem_of_nil in Hl.
Qed.

Lemma note_serial_identity a d :
  yields (note_serial H a d) (λ r, same_identity d r.2).
Proof.
  unfold note_serial. destruct a as [F D].
  eapply yields_bind; [apply _serial_identity |]. intros [s d1] H1.
  eapply yields_bind; [apply _serial_identity |]. intros [s' d2] H2.
  simpl in H1, H2.
  destruct (bool_decide _); apply yields_ret; simpl;
    eapply same_identity_trans; eassumption.
Qed.

Lemma get_sdr_info_holds self p text :
  shell H (ticks p) "lsusb" = Stdout text →
  ∃ self' p',
    get_sdr_info H self p = (Returned self', p')
    ∧ ∀ t a, holds (sdrs self') t a ↔ listed text t a.
Proof.
  intros E. unfold get_sdr_info.
  assert (E0 : try_subprocess (subprocess_run H "lsusb") p =
               (Returned (Some text),
                {| ticks := S (ticks p);
                   journal := (journal p ++ [Ran "lsusb"])%list |})).
  { unfold try_subprocess, subprocess_run. now rewrite E. }
  rewrite (bind_returned _ _ _ _ _ E0).
  destruct (yields_print_err ("lsusb: " +:+ text)
              {| ticks := S (ticks p); journal := (journal p ++ [Ran "lsusb"])%list |})
    as ([] & p0 & E0' & _).
  rewrite (bind_returned _ _ _ _ _ E0').
  destruct (collect_holds text p0) as (found & p1 & E1 & Hf).
  rewrite (bind_returned _ _ _ _ _ E1).
  destruct (yields_for_each_rel (note_serial H) same_identity
              note_serial_identity found (∅, ∅) p1)
    as ([[F D] found'] & p2 & E2 & HF).
  rewrite (bind_returned _ _ _ _ _ E2). simpl in HF.
  eexists _, _. split; [reflexivity |]. simpl.
  intros t a. now rewrite <- (holds_same _ _ t a HF).
Qed.

End Identity.

(** X3. On any host, when the listing command completes, [get_sdr_info]
    returns and the list it stores has a device of a given type at a given
    address exactly when a line of the listing shows one: no listed device
    is missed and no device is made up. *)
Theorem refresh_stores_exactly_the_listed_devices (H : Host) self p text :
  shell H (ticks p) "lsusb" = Stdout text →
  ∃ self' p',
    get_sdr_info H self p = (Returned self', p')
    ∧ ∀ t a, holds (sdrs self') t a ↔ listed text t a.
Proof. apply get_sdr_info_holds. Qed.

Lemma refresh_stores_exactly_the_listed_devices_witness :
  ∃ self' p',
    get_sdr_info Bench.airspy_then_rtlsdr Bench.stale idle = (Returned self', p')
    ∧ ∀ t a, holds (sdrs self') t a ↔
             listed (Bench.hub_line +:+ Bench.airspy_line "001:002"
                     +:+ Bench.rtlsdr_line "001:003") t a.
Proof.
  apply (refresh_stores_exactly_the_listed_devices
           Bench.airspy_then_rtlsdr Bench.stale idle).
  reflexivity.
Defined.

Lemma kind_of_pidvid_known pidvid :
  kind_of_pidvid pidvid = "sdrplay" ∨ kind_of_pidvid pidvid = "airspy"
  ∨ kind_of_pidvid pidvid = "rtlsdr".
Proof.
  unfold kind_of_pidvid. destruct (Text.startswith pidvid "1df7"); [now left |].
  destruct (String.eqb pidvid "1d50:60a1"); auto.
Qed.

(** X4. On any host, after a refresh whose listing command completed,
    every stored device is an sdrplay, an airspy or an rtlsdr, and its
    address is two non-empty runs of hexadecimal digits around a colon. *)
Theorem stored_devices_are_of_known_kind (H : Host) self p text :
  shell H (ticks p) "lsusb" = Stdout text →
  ∃ self' p',
    get_sdr_info H self p = (Returned self', p')
    ∧ ∀ d, d ∈ sdrs self' →
        (_type d = "sdrplay" ∨ _type d = "airspy" ∨ _type d = "rtlsdr")
        ∧ ∃ bus dev,
            _address d = bus +:+ ":" +:+ dev ∧ bus ≠ "" ∧ dev ≠ ""
            ∧ every Text.ishex bus = true ∧ every Text.ishex dev = true.
Proof.
  intros E. destruct (get_sdr_info_holds H self p text E) as (self' & p' & Ei & Hh).
  exists self', p'. split; [exact Ei |]. intros d Hd.
  assert (Hl : listed text (_type d) (_address d)).
  { apply Hh. now exists d. }
  destruct Hl as (line & pidvid & _ & _ & Ea & Hne & Ek). split.
  - rewrite <- Ek. apply kind_of_pidvid_known.
  - destruct (address_shape pidvid line) as [E0 | (bus & dev & before & rest & E1 & Hrest)].
    + congruence.
    + exists bus, dev. rewrite <- Ea. split; [exact E1 |].
      destruct Hrest as (? & ? & ? & ? & _). auto.
Qed.

Lemma stored_devices_are_of_known_kind_witness :
  ∃ self' p',
    get_sdr_info Bench.twins SDRDevices_init idle = (Returned self', p')
    ∧ ∀ d, d ∈ sdrs self' →
        (_type d = "sdrplay" ∨ _type d = "airspy" ∨ _type d = "rtlsdr")
        ∧ ∃ bus dev,
            _address d = bus +:+ ":" +:+ dev ∧ bus ≠ "" ∧ dev ≠ ""
            ∧ every Text.ishex bus = true ∧ every Text.ishex dev = true.
Proof.
  apply (stored_devices_are_of_known_kind Bench.twins SDRDevices_init idle
           (Bench.hub_line +:+ Bench.rtlsdr_line "001:003"
            +:+ Bench.rtlsdr_line "001:004")).
  reflexivity.
Defined.

Lemma consider_nothing (H : Host) line found pidvid p :
  _get_address_for_pid_vid pidvid line = "" →
  consider H line found pidvid p = (Returned found, p).
Proof. intros E. unfold consider. now rewrite E. Qed.

Lemma collect_nothing (H : Host) lines : ∀ p,
  Forall (λ line, Forall (λ pidvid, _get_address_for_pid_vid pidvid line = "")
                    pidvids) lines →
  collect H lines p = (Returned [], p).
Proof.
  unfold collect. generalize (@nil SDR) as found.
  induction lines as [| line lines IH]; intros found p Hno; simpl; [reflexivity |].
  inversion Hno as [| ? ? Hline Hrest]; subst.
  assert (E : foldM (consider H line) pidvids found p = (Returned found, p)).
  { clear -Hline. induction Hline as [| pidvid ids E _ IHl]; simpl; [reflexivity |].
    now rewrite (bind_returned _ _ _ _ _ (consider_nothing H line found pidvid p E)). }
  rewrite (bind_returned _ _ _ _ _ E). now apply IH.
Qed.

(** X5. On any host, when the listing command completes and none of its
    lines shows one of the six identifiers (an empty listing is one), the
    refresh stores an empty device list and an empty duplicates set, and
    the only command it has run is the listing. *)
Theorem refresh_without_radio_stores_nothing (H : Host) self p text :
  shell H (ticks p) "lsusb" = Stdout text →
  Forall (λ line, Forall (λ pidvid, _get_address_for_pid_vid pidvid line = "")
                    pidvids) (Text.readlines text) →
  get_sdr_info H self p =
    (Returned {| sdrs := []; duplicates := ∅; _last_check := _last_check self |},
     {| ticks := S (ticks p);
        journal := journal p ++ [Ran "lsusb"; ToStderr ("lsusb: " +:+ text)] |}).
Proof.
  intros E Hno. unfold get_sdr_info.
  unfold bind at 1, try_subprocess, subprocess_run. rewrite E.
  unfold bind at 1, print_err, emit. cbn [ticks journal].
  rewrite (bind_returned _ _ _ _ _ (collect_nothing H _ _ Hno)).
  simpl. unfold bind, ret. simpl. now rewrite <- app_assoc.
Qed.

Lemma refresh_without_radio_stores_nothing_witness :
  get_sdr_info
    (Bench.host_with (Stdout Bench.hub_line) (λ _, Bench.without_serial) Bench.noon)
    Bench.stale idle =
    (Returned {| sdrs := []; duplicates := ∅;
                 _last_check := Bench.noon - 60000000 |},
     {| ticks := 1;
        journal := [Ran "lsusb"; ToStderr ("lsusb: " +:+ Bench.hub_line)] |}).
Proof.
  apply (refresh_without_radio_stores_nothing
           (Bench.host_with (Stdout Bench.hub_line) (λ _, Bench.without_serial)
                            Bench.noon)
           Bench.stale idle Bench.hub_line).
  - reflexivity.
  - vm_compute. repeat constructor.
Defined.

(** ** More on reading a serial *)

Lemma scan_serial_app p l1 l2 :
  scan_serial p (l1 ++ l2) = scan_serial (scan_serial p l1) l2.
Proof. unfold scan_serial. apply fold_left_app. Qed.

Lemma lstrip_head s :
  match Text.lstrip s with
  | String c _ => Text.isspace c = false
  | EmptyString => True
  end.
Proof.
  unfold Text.lstrip. induction s as [| c s IH]; simpl; [exact I |].
  destruct (Text.isspace c) eqn:Sc.
  - now destruct (Text.span Text.isspace s).
  - simpl. exact Sc.
Qed.

Lemma rstrip_rstrip s : Text.rstrip (Text.rstrip s) = Text.rstrip s.
Proof.
  induction s as [| c s IH]; simpl; [reflexivity |].
  destruct (Text.rstrip s) as [| c' r] eqn:E.
  - destruct (Text.isspace c) eqn:Sc; simpl; [reflexivity | now rewrite Sc].
  - simpl in *. now rewrite IH.
Qed.

Lemma rstrip_head c s :
  Text.isspace c = false → ∃ r, Text.rstrip (String c s) = String c r.
Proof.
  intros Sc. simpl. destruct (Text.rstrip s); [rewrite Sc |]; eauto.
Qed.

Lemma strip_strip s : Text.strip (Text.strip s) = Text.strip s.
Proof.
  unfold Text.strip. pose proof (lstrip_head s) as Hh.
  destruct (Text.lstrip s) as [| c r]; [reflexivity |].
  destruct (rstrip_head c r Hh) as [r' E]. rewrite E.
  assert (El : Text.lstrip (String c r') = String c r').
  { unfold Text.lstrip. simpl. now rewrite Hh. }
  rewrite El, <- E. apply rstrip_rstrip.
Qed.

Lemma scan_serial_stripped lines : ∀ p,
  scan_serial p lines = p
  ∨ ∃ s, scan_serial p lines = Some s ∧ Text.strip s = s.
Proof.
  induction lines as [| line lines IH]; intros p; [now left |].
  change (scan_serial p (line :: lines))
    with (scan_serial (match serial_match line with
                       | Some g => Some (Text.strip g) | None => p end) lines).
  destruct (serial_match line) as [g |]; [| apply IH].
  destruct (IH (Some (Text.strip g))) as [E | E]; [| now right].
  right. exists (Text.strip g). split; [exact E | apply strip_strip].
Qed.

(** X6. When a device without a stored serial is probed and several lines
    of the output match the serial pattern, the last of them wins: its
    group, stripped, is what the object stores, and what the read returns
    unless it is empty. *)
Theorem last_serial_line_wins (H : Host) d p out before line after g :
  truthy (_serial_probed d) = false →
  shell H (ticks p) (lsusb_v_cmdline (_address d)) = Stdout out →
  Text.splitlines out = (before ++ line :: after)%list →
  serial_match line = Some g →
  Forall (λ l, serial_match l = None) after →
  ∃ v d' p',
    _serial H d p = (Returned (v, d'), p')
    ∧ _serial_probed d' = Some (Text.strip g)
    ∧ (Text.strip g ≠ "" → v = Some (Text.strip g)).
Proof.
  intros T E Hl Hg Hafter.
  rewrite (_serial_probes H d p out T E). eexists _, _, _.
  split; [reflexivity |].
  assert (Em : _serial_probed (probed_with out d) = Some (Text.strip g)).
  { unfold probed_with. simpl. rewrite Hl, scan_serial_app.
    change (scan_serial ?q (line :: after))
      with (scan_serial (match serial_match line with
                         | Some g => Some (Text.strip g) | None => q end) after).
    rewrite Hg. now apply scan_serial_no_match. }
  split; [exact Em |]. intros Hne.
  rewrite reported_truthy; [exact Em |]. rewrite Em.
  destruct (Text.strip g); [contradiction | reflexivity].
Qed.

Lemma last_serial_line_wins_witness :
  ∃ v d' p',
    _serial
      (Bench.host_with Fails
         (λ _, Stdout ("  iSerial                 3 00000001" +:+ Bench.nl +:+
                       "  iSerial                 3 00001090  " +:+ Bench.nl +:+
                       "  bNumConfigurations      1" +:+ Bench.nl))
         Bench.noon)
      (SDR_init "rtlsdr" "001:003") idle = (Returned (v, d'), p')
    ∧ _serial_probed d' = Some "00001090"
    ∧ v = Some "00001090".
Proof.
  destruct (last_serial_line_wins
              (Bench.host_with Fails
                 (λ _, Stdout ("  iSerial                 3 00000001" +:+ Bench.nl +:+
                               "  iSerial                 3 00001090  " +:+ Bench.nl +:+
                               "  bNumConfigurations      1" +:+ Bench.nl))
                 Bench.noon)
              (SDR_init "rtlsdr" "001:003") idle
              ("  iSerial                 3 00000001" +:+ Bench.nl +:+
               "  iSerial                 3 00001090  " +:+ Bench.nl +:+
               "  bNumConfigurations      1" +:+ Bench.nl)
              ["  iSerial                 3 00000001"]
              "  iSerial                 3 00001090  "
              ["  bNumConfigurations      1"]
              "00001090  ")
    as (v & d' & p' & E & Em & Hv).
  - reflexivity.
  - reflexivity.
  - vm_compute. reflexivity.
  - vm_compute. reflexivity.
  - repeat constructor.
  - exists v, d', p'. split; [exact E |]. split; [exact Em |].
    apply Hv. vm_compute. discriminate.
Defined.

(** X7. On any host, a read either leaves the stored serial as it was or
    stores a string that has no white space at its start or at its end
    (stripping it again changes nothing); so a serial printed with spaces
    around it is compared, by the later rules, without them. *)
Theorem stored_serial_is_stripped (H : Host) d p v d' p' :
  _serial H d p = (Returned (v, d'), p') →
  _serial_probed d' = _serial_probed d
  ∨ ∃ s, _serial_probed d' = Some s ∧ Text.strip s = s.
Proof.
  intros E. destruct (truthy (_serial_probed d)) eqn:T.
  - rewrite (_serial_memo H d p T) in E. inversion E. now left.
  - destruct (shell H (ticks p) (lsusb_v_cmdline (_address d))) as [out |] eqn:Es.
    + rewrite (_serial_probes H d p out T Es) in E. inversion E; subst.
      unfold probed_with. simpl. apply scan_serial_stripped.
    + rewrite (_serial_fails H d p T Es) in E. inversion E. now left.
Qed.

Lemma stored_serial_is_stripped_witness :
  _serial_probed
    {| _type := "rtlsdr"; _address := "001:003"; _serial_probed := Some "1090" |}
  = _serial_probed (SDR_init "rtlsdr" "001:003")
  ∨ ∃ s,
      _serial_probed
        {| _type := "rtlsdr"; _address := "001:003"; _serial_probed := Some "1090" |}
      = Some s
      ∧ Text.strip s = s.
Proof.
  apply (stored_serial_is_stripped
           (Bench.host_with Fails (λ _, Bench.with_serial "  1090  ") Bench.noon)
           (SDR_init "rtlsdr" "001:003") idle (Some "1090")
           {| _type := "rtlsdr"; _address := "001:003";
              _serial_probed := Some "1090" |}
           (snd (_serial
                   (Bench.host_with Fails (λ _, Bench.with_serial "  1090  ")
                                    Bench.noon)
                   (SDR_init "rtlsdr" "001:003") idle))).
  vm_compute. reflexivity.
Defined.

(** ** More on the heuristic *)

Section Mapping.

Variable H : Host.

Lemma assign_keeps_dom m d :
  dom m = ({[1090; 978]} : gset Z) →
  yields (assign H m d) (λ r, dom r.1 = ({[1090; 978]} : gset Z)).
Proof.
  intros Hd. unfold assign.
  destruct (String.eqb (_type d) "airspy").
  { eapply yields_bind; [apply _serial_returns |]. intros [s d'] _.
    apply yields_ret. simpl. rewrite dom_insert_L, Hd. set_solver. }
  destruct (String.eqb (_type d) "rtlsdr"); [| now apply yields_ret].
  eapply yields_bind; [apply _serial_returns |]. intros [s d1] _.
  destruct (bool_decide _).
  { eapply yields_bind; [apply _serial_returns |]. intros [s' d2] _.
    apply yields_ret. simpl. rewrite dom_insert_L, Hd. set_solver. }
  eapply yields_bind; [apply _serial_returns |]. intros [s' d2] _.
  destruct (bool_decide _); [| now apply yields_ret].
  eapply yields_bind; [apply _serial_returns |]. intros [s'' d3] _.
  apply yields_ret. simpl. rewrite dom_insert_L, Hd. set_solver.
Qed.

Lemma blank_dom : dom (blank [1090; 978]) = ({[1090; 978]} : gset Z).
Proof. unfold blank. simpl. rewrite !dom_insert_L, dom_empty_L. set_solver. Qed.

Lemma assign_all_dom self :
  yields (assign_all H self) (λ r, dom r.1 = ({[1090; 978]} : gset Z)).
Proof.
  unfold assign_all.
  eapply yields_bind;
    [apply (yields_for_each_inv _ (λ m, dom m = ({[1090; 978]} : gset Z)));
     [apply assign_keeps_dom | apply blank_dom] |].
  intros [m l'] Hd. simpl in Hd.
  assert (K1 : is_Some (m !! 1090)) by (apply elem_of_dom; rewrite Hd; set_solver).
  assert (K2 : is_Some (m !! 978)) by (apply elem_of_dom; rewrite Hd; set_solver).
  destruct K1 as [v1 K1], K2 as [v2 K2].
  unfold getitem. rewrite K1, K2.
  apply yields_bind_ret.
  destruct (negb (truthy v1)); [| now apply yields_ret].
  apply yields_bind_ret.
  destruct (negb (truthy v2)); simpl; [| now apply yields_ret].
  destruct l' as [| d [| d' l']]; simpl; try now apply yields_ret.
  eapply yields_bind; [apply _serial_returns |]. intros [s d1] _.
  apply yields_ret. simpl. rewrite dom_insert_L, Hd. set_solver.
Qed.

End Mapping.

Lemma mapping_dom_helper (H : Host) self p :
  ∃ m self' p',
    addresses_per_frequency H self p = (Returned (m, self'), p')
    ∧ dom m = ({[1090; 978]} : gset Z).
Proof.
  unfold addresses_per_frequency.
  destruct (_ensure_populated_returns H self p) as (self1 & p1 & E1 & _).
  destruct (assign_all_dom H self1 p1) as ([m self2] & p2 & E2 & Hd).
  exists m, self2, p2. split; [| exact Hd].
  now rewrite (bind_returned _ _ _ _ _ E1).
Qed.

(** X9. The keys of a mapping that [addresses_per_frequency] returns are
    1090 and 978, both of them and no other, whatever the registry holds
    and whatever serials are read: the loop and the default for a lone
    device assign to these two keys only. *)
Theorem mapping_has_the_two_roles_only (H : Host) self p m self' p' :
  addresses_per_frequency H self p = (Returned (m, self'), p') →
  dom m = ({[1090; 978]} : gset Z).
Proof.
  intros E.
  destruct (mapping_dom_helper H self p) as (m0 & self0 & p0 & E0 & Hd).
  rewrite E in E0. now inversion E0; subst.
Qed.

Lemma mapping_has_the_two_roles_only_witness :
  ∃ m self' p',
    addresses_per_frequency Bench.airspy_then_rtlsdr SDRDevices_init idle
      = (Returned (m, self'), p')
    ∧ m !! 1090 = Some (Some "1090")
    ∧ dom m = ({[1090; 978]} : gset Z).
Proof.
  eexists _, _, _. split; [vm_compute; reflexivity |].
  split; [vm_compute; reflexivity |].
  eapply (mapping_has_the_two_roles_only Bench.airspy_then_rtlsdr
            SDRDevices_init idle).
  vm_compute. reflexivity.
Defined.

(** X10. On any host, when the registry has no device once
    [_ensure_populated] has run, [addresses_per_frequency] maps both roles
    to the empty string. *)
Theorem no_device_no_assignment (H : Host) self p self1 p1 :
  _ensure_populated H self p = (Returned self1, p1) →
  sdrs self1 = [] →
  addresses_per_frequency H self p =
    (Returned (<[978 := Some ""]> (<[1090 := Some ""]> ∅), self1), p1).
Proof.
  intros E1 El. unfold addresses_per_frequency.
  rewrite (bind_returned _ _ _ _ _ E1). unfold assign_all. rewrite El.
  destruct self1 as [l D t]. simpl in El. subst l. reflexivity.
Qed.

Lemma no_device_no_assignment_witness :
  addresses_per_frequency Bench.unplugged SDRDevices_init idle =
    (Returned (<[978 := Some ""]> (<[1090 := Some ""]> ∅),
               {| sdrs := []; duplicates := ∅; _last_check := Bench.noon + 2000 |}),
     {| ticks := 3; journal := [Ran "lsusb"; ToStderr "lsusb: "] |}).
Proof.
  apply (no_device_no_assignment Bench.unplugged SDRDevices_init idle);
    reflexivity.
Defined.

Section Roles.

Variable H : Host.

Lemma in_pair (s a b : pyval) : s ∈ [a; b] ↔ s = a ∨ s = b.
Proof. rewrite elem_of_cons, list_elem_of_singleton. reflexivity. Qed.

Lemma assigned_claims m d :
  claims_1090 H d → assigned H m d = <[1090 := resolved_serial H d]> m.
Proof.
  unfold assigned. intros [Ea | (Et & Es)].
  - now rewrite Ea.
  - rewrite Et. simpl. rewrite bool_decide_eq_true_2; [reflexivity |].
    now apply in_pair.
Qed.

Lemma assigned_no_claim m d :
  ¬ claims_1090 H d → assigned H m d !! 1090 = m !! 1090.
Proof.
  unfold assigned, claims_1090. intros Hn.
  destruct (String.eqb_spec (_type d) "airspy") as [Ea | _]; [tauto |].
  destruct (String.eqb_spec (_type d) "rtlsdr") as [Et | _]; [| reflexivity].
  destruct (bool_decide_reflect
              (resolved_serial H d ∈ [Some "1090"; Some "00001090"])) as [H1 | _].
  { apply in_pair in H1. tauto. }
  destruct (bool_decide _); [| reflexivity].
  now rewrite lookup_insert_ne.
Qed.

Lemma assigned_announces m d :
  announces_978 H d → assigned H m d = <[978 := resolved_serial H d]> m.
Proof.
  unfold assigned. intros (Et & Es). rewrite Et. simpl.
  rewrite bool_decide_eq_false_2.
  - rewrite bool_decide_eq_true_2; [reflexivity | now apply in_pair].
  - rewrite in_pair. destruct Es as [-> | ->]; intros [? | ?]; discriminate.
Qed.

Lemma assigned_no_announce m d :
  ¬ announces_978 H d → assigned H m d !! 978 = m !! 978.
Proof.
  unfold assigned, announces_978. intros Hn.
  destruct (String.eqb_spec (_type d) "airspy") as [_ | _];
    [now rewrite lookup_insert_ne |].
  destruct (String.eqb_spec (_type d) "rtlsdr") as [Et | _]; [| reflexivity].
  destruct (bool_decide _); [now rewrite lookup_insert_ne |].
  destruct (bool_decide_reflect
              (resolved_serial H d ∈ [Some "978"; Some "00000978"])) as [H2 | _];
    [| reflexivity].
  apply in_pair in H2. tauto.
Qed.

(** The entry of a key after the loop, when the loop writes it for the
    devices that satisfy [P] and for no other. *)
Lemma fold_assigned_none (k : Z) (P : SDR → Prop) :
  (∀ m d, ¬ P d → assigned H m d !! k = m !! k) →
  ∀ l m, Forall (λ d, ¬ P d) l → fold_left (assigned H) l m !! k = m !! k.
Proof.
  intros Hno. induction l as [| d l IH]; intros m Hl; simpl; [reflexivity |].
  inversion Hl; subst. rewrite IH by assumption. now apply Hno.
Qed.

Lemma fold_assigned_last (k : Z) (P : SDR → Prop) :
  (∀ m d, P d → assigned H m d = <[k := resolved_serial H d]> m) →
  (∀ m d, ¬ P d → assigned H m d !! k = m !! k) →
  ∀ l1 c l2 m, P c → Forall (λ d, ¬ P d) l2 →
    fold_left (assigned H) (l1 ++ c :: l2) m !! k = Some (resolved_serial H c).
Proof.
  intros Hyes Hno l1 c l2 m Hc Hl2.
  rewrite fold_left_app. simpl.
  rewrite (fold_assigned_none k P Hno) by assumption.
  rewrite Hyes by assumption. apply lookup_insert_eq.
Qed.

Lemma heuristic_978 l :
  heuristic H l !! 978 = fold_left (assigned H) l (blank [1090; 978]) !! 978.
Proof.
  unfold heuristic. destruct l as [| d [| d' l]]; try reflexivity.
  destruct (_ && _)%bool; [| reflexivity]. now rewrite lookup_insert_ne.
Qed.

Lemma heuristic_1090_last l1 c l2 :
  claims_1090 H c → Forall (λ d, ¬ claims_1090 H d) l2 →
  heuristic H (l1 ++ c :: l2) !! 1090 = Some (resolved_serial H c).
Proof.
  intros Hc Hl2.
  pose proof (fold_assigned_last 1090 (claims_1090 H) assigned_claims
                assigned_no_claim l1 c l2 (blank [1090; 978]) Hc Hl2) as E.
  unfold heuristic.
  destruct (l1 ++ c :: l2)%list as [| d [| d' l]] eqn:El; try exact E.
  destruct (_ && _)%bool; [| exact E].
  destruct l1 as [| x l1]; simpl in El.
  - inversion El; subst. apply lookup_insert_eq.
  - inversion El as [[Ex El']]. destruct l1; discriminate.
Qed.

Lemma heuristic_1090_none l :
  Forall (λ d, ¬ claims_1090 H d) l → length l ≠ 1%nat →
  heuristic H l !! 1090 = Some (Some "").
Proof.
  intros Hl Hlen.
  pose proof (fold_assigned_none 1090 (claims_1090 H) assigned_no_claim
                l (blank [1090; 978]) Hl) as E.
  unfold heuristic. destruct l as [| d [| d' l]]; try exact E.
  now contradiction Hlen.
Qed.

Lemma assigned_equal m d d' :
  equal_devices H d d' → assigned H m d = assigned H m d'.
Proof. intros (Et & _ & Es). unfold assigned. now rewrite Et, Es. Qed.

Lemma heuristic_equal l l' :
  Forall2 (equal_devices H) l l' → heuristic H l = heuristic H l'.
Proof.
  intros F.
  assert (Ef : ∀ m, fold_left (assigned H) l m = fold_left (assigned H) l' m).
  { induction F as [| d d' l l' Hd _ IH]; intros m; simpl; [reflexivity |].
    now rewrite (assigned_equal m d d' Hd), IH. }
  unfold heuristic. rewrite Ef.
  destruct F as [| d d' l l' Hd F]; [reflexivity |].
  destruct F; [| reflexivity].
  destruct Hd as (_ & _ & ->). reflexivity.
Qed.

End Roles.

(** X11. On a host whose answers do not change, the 1090 role goes to the
    last device of the stored list that is an airspy or an rtlsdr whose
    serial is 1090 or 00001090, with the serial of that device: a later
    one overwrites an earlier one, of either kind. When there is no such
    device and the list is not a single device, the role is empty. *)
Theorem role_1090_goes_to_the_last_candidate (H : Host) self p self1 p1 :
  stable H →
  _ensure_populated H self p = (Returned self1, p1) →
  ∃ m self2 p2,
    addresses_per_frequency H self p = (Returned (m, self2), p2)
    ∧ (∀ l1 c l2,
         sdrs self1 = (l1 ++ c :: l2)%list →
         claims_1090 H c → Forall (λ d, ¬ claims_1090 H d) l2 →
         m !! 1090 = Some (resolved_serial H c))
    ∧ (Forall (λ d, ¬ claims_1090 H d) (sdrs self1) →
       length (sdrs self1) ≠ 1%nat →
       m !! 1090 = Some (Some "")).
Proof.
  intros St E1.
  destruct (assign_all_stable H St self1 p1) as ([m self2] & p2 & E2 & Em & _).
  simpl in Em. exists m, self2, p2. split; [| split].
  - unfold addresses_per_frequency. now rewrite (bind_returned _ _ _ _ _ E1).
  - intros l1 c l2 El Hc Hl2. rewrite Em, El. now apply heuristic_1090_last.
  - intros Hl Hlen. rewrite Em. now apply heuristic_1090_none.
Qed.

Lemma role_1090_goes_to_the_last_candidate_witness :
  ∃ m self2 p2,
    addresses_per_frequency Bench.twins Bench.recent idle
      = (Returned (m, self2), p2)
    ∧ m !! 1090 = Some (resolved_serial Bench.twins Bench.rtlsdr_1090).
Proof.
  destruct (role_1090_goes_to_the_last_candidate
              Bench.twins Bench.recent idle Bench.recent
              {| ticks := 1; journal := [] |})
    as (m & self2 & p2 & E & Hlast & _).
  - apply stable_host_with.
  - reflexivity.
  - exists m, self2, p2. split; [exact E |].
    apply (Hlast [] Bench.rtlsdr_1090 []); [reflexivity | | constructor].
    right. split; [reflexivity | now left].
Defined.

(** X12. On a host whose answers do not change, the 978 role goes to the
    last rtlsdr of the stored list whose serial is 978 or 00000978, with
    that serial, and is empty when there is none: no airspy, no sdrplay
    and no device with another serial is ever given the 978 role. *)
Theorem role_978_goes_to_an_announcing_rtlsdr (H : Host) self p self1 p1 :
  stable H →
  _ensure_populated H self p = (Returned self1, p1) →
  ∃ m self2 p2,
    addresses_per_frequency H self p = (Returned (m, self2), p2)
    ∧ (∀ l1 c l2,
         sdrs self1 = (l1 ++ c :: l2)%list →
         announces_978 H c → Forall (λ d, ¬ announces_978 H d) l2 →
         m !! 978 = Some (resolved_serial H c))
    ∧ (Forall (λ d, ¬ announces_978 H d) (sdrs self1) →
       m !! 978 = Some (Some "")).
Proof.
  intros St E1.
  destruct (assign_all_stable H St self1 p1) as ([m self2] & p2 & E2 & Em & _).
  simpl in Em. exists m, self2, p2. split; [| split].
  - unfold addresses_per_frequency. now rewrite (bind_returned _ _ _ _ _ E1).
  - intros l1 c l2 El Hc Hl2. rewrite Em, El, heuristic_978.
    now apply (fold_assigned_last H 978 (announces_978 H)
                 (assigned_announces H) (assigned_no_announce H)).
  - intros Hl. rewrite Em, heuristic_978.
    now rewrite (fold_assigned_none H 978 (announces_978 H)
                   (assigned_no_announce H)).
Qed.

Lemma role_978_goes_to_an_announcing_rtlsdr_witness :
  ∃ m self2 p2,
    addresses_per_frequency Bench.twins Bench.recent idle
      = (Returned (m, self2), p2)
    ∧ m !! 978 = Some (Some "").
Proof.
  destruct (role_978_goes_to_an_announcing_rtlsdr
              Bench.twins Bench.recent idle Bench.recent
              {| ticks := 1; journal := [] |})
    as (m & self2 & p2 & E & _ & Hnone).
  - apply stable_host_with.
  - reflexivity.
  - exists m, self2, p2. split; [exact E |].
    apply Hnone. repeat constructor.
    intros [_ [A | A]]; vm_compute in A; discriminate.
Defined.

(** X13. On a host whose answers do not change, asking again while the
    clock reads less than five seconds after the last refresh gives the
    mapping that the call before gave. *)
Theorem mapping_is_stable_within_ttl (H : Host) self p m self' p' :
  stable H →
  addresses_per_frequency H self p = (Returned (m, self'), p') →
  clock H (ticks p') - _last_check self' < ttl →
  ∃ self'' p'',
    addresses_per_frequency H self' p' = (Returned (m, self''), p'').
Proof.
  intros St E Hlt.
  destruct (_ensure_populated_returns H self p) as (self1 & p1 & E1 & _).
  destruct (assign_all_stable H St self1 p1)
    as ([m1 self2] & p2 & E2 & Em & HF & _ & Et).
  simpl in Em, HF, Et.
  unfold addresses_per_frequency in E.
  rewrite (bind_returned _ _ _ _ _ E1), E2 in E.
  injection E as Hm Hs Hp. rewrite Hm in Em. rewrite Hs in HF, Et. clear Hm Hs Hp.
  destruct (assign_all_stable H St self'
              {| ticks := S (ticks p'); journal := journal p' |})
    as ([m3 self3] & p3 & E3 & Em3 & _).
  simpl in Em3. exists self3, p3.
  unfold addresses_per_frequency.
  rewrite (bind_returned _ _ _ _ _ (ensure_within_ttl H self' p' Hlt)).
  rewrite E3, Em3, Em. now rewrite (heuristic_equal H _ _ HF).
Qed.

Lemma mapping_is_stable_within_ttl_witness :
  ∃ self'' p'',
    addresses_per_frequency Bench.lone_uat
      {| sdrs := [{| _type := "rtlsdr"; _address := "001:003";
                     _serial_probed := Some "978" |}];
         duplicates := ∅; _last_check := Bench.noon + 3000 |}
      (snd (addresses_per_frequency Bench.lone_uat SDRDevices_init idle))
    = (Returned (<[978 := Some "978"]> (blank [1090; 978]), self''), p'').
Proof.
  apply (mapping_is_stable_within_ttl Bench.lone_uat SDRDevices_init idle).
  - apply stable_host_with.
  - vm_compute. reflexivity.
  - vm_compute. reflexivity.
Defined.

(** ** More on [sdr_info] *)

Lemma fold_left_snoc_map {A B} (f : A → B) l : ∀ acc,
  fold_left (λ js d, (js ++ [f d])%list) l acc = (acc ++ map f l)%list.
Proof.
  induction l as [| d l IH]; intros acc; simpl; [now rewrite app_nil_r |].
  rewrite IH. now rewrite <- app_assoc.
Qed.

Lemma entries_length (H : Host) l : ∀ js,
  yields (for_each (λ js sdr, r <- _json H sdr ;;
                              let '(j, sdr') := r in ret ((js ++ [j])%list, sdr'))
                   l js)
    (λ r, length r.1 = (length js + length l)%nat ∧ length r.2 = length l).
Proof.
  induction l as [| d l IH]; intros js; simpl.
  - apply yields_ret. simpl. lia.
  - eapply yields_bind.
    { eapply yields_bind; [apply _json_returns |]. intros [j d'] _.
      apply (yields_ret _ (λ r, length r.1 = S (length js))). simpl.
      rewrite length_app. simpl. lia. }
    intros [js' d'] Hj. simpl in Hj.
    eapply yields_bind; [apply IH |]. intros [js'' l'] [H1 H2]. simpl in H1, H2.
    apply yields_ret. simpl. lia.
Qed.

Lemma entries_stable (H : Host) (St : stable H) l :
  yields (for_each (λ js sdr, r <- _json H sdr ;;
                              let '(j, sdr') := r in ret ((js ++ [j])%list, sdr'))
                   l [])
    (λ r, r.1 = map (json_of H) l ∧ Forall2 (equal_devices H) l r.2).
Proof.
  eapply yields_weaken.
  - apply (yields_for_each _ (λ js d, (js ++ [json_of H d])%list) (equal_devices H)).
    intros js d. eapply yields_bind; [now apply _json_stable |].
    intros r ->. apply yields_ret. simpl. split; [reflexivity | apply equal_settled].
  - intros r [E HF]. split; [| exact HF].
    rewrite E. apply (fold_left_snoc_map (json_of H) l []).
Qed.

(** X16. On a host whose answers do not change, the device entries of
    [sdr_info] are, in the order of the stored list, the type, the address
    and the resolved serial of each device that [addresses_per_frequency]
    left in the registry; the devices stay the same devices. *)
Theorem sdr_info_lists_the_stored_devices
        (H : Host) (env_by_tags : string → option Env)
        self p self1 p1 guess self2 p2 :
  stable H →
  _ensure_populated H self p = (Returned self1, p1) →
  addresses_per_frequency H self1 p1 = (Returned (guess, self2), p2) →
  ∃ out self3 p3,
    sdr_info H env_by_tags self p = (Returned (out, self3), p3)
    ∧ sdrdevices out = map (json_of H) (sdrs self2)
    ∧ Forall2 (equal_devices H) (sdrs self2) (sdrs self3).
Proof.
  intros St E1 E2.
  destruct (entries_stable H St (sdrs self2) p2) as ([js l3] & p3 & E3 & Ej & HF).
  simpl in Ej, HF.
  eexists _, _, p3. split.
  - unfold sdr_info.
    rewrite (bind_returned _ _ _ _ _ E1), (bind_returned _ _ _ _ _ E2).
    rewrite (bind_returned _ _ _ _ _ E3). reflexivity.
  - simpl. auto.
Qed.

Lemma sdr_info_lists_the_stored_devices_witness :
  ∃ out self3 p3,
    sdr_info Bench.twins Bench.stored_uat Bench.recent idle
      = (Returned (out, self3), p3)
    ∧ sdrdevices out = [json_of Bench.twins Bench.rtlsdr_1090]
    ∧ Forall2 (equal_devices Bench.twins) [Bench.rtlsdr_1090] (sdrs self3).
Proof.
  apply (sdr_info_lists_the_stored_devices
           Bench.twins Bench.stored_uat Bench.recent idle
           Bench.recent {| ticks := 1; journal := [] |}
           (<[1090 := Some "1090"]> (blank [1090; 978]))
           Bench.recent {| ticks := 2; journal := [] |}).
  - apply stable_host_with.
  - reflexivity.
  - vm_compute. reflexivity.
Defined.

(** X17. A setting of a role whose value is [None] is not an empty
    string: [sdr_info] writes it over the entry of the heuristic, and the
    role is handed over as [None]. *)
Theorem none_setting_overrides_heuristic
        (H : Host) (env_by_tags : string → option Env)
        self p self1 p1 guess self2 p2 :
  _ensure_populated H self p = (Returned self1, p1) →
  addresses_per_frequency H self1 p1 = (Returned (guess, self2), p2) →
  ∃ out self3 p3,
    sdr_info H env_by_tags self p = (Returned (out, self3), p3)
    ∧ (env_by_tags "1090serial" = Some {| value := None |} →
       frequencies out !! 1090 = Some None)
    ∧ (env_by_tags "978serial" = Some {| value := None |} →
       frequencies out !! 978 = Some None).
Proof.
  intros E1 E2.
  destruct (entries_length H (sdrs self2) [] p2) as ([js l3] & p3 & E3 & _).
  eexists _, _, p3. split.
  - unfold sdr_info.
    rewrite (bind_returned _ _ _ _ _ E1), (bind_returned _ _ _ _ _ E2).
    rewrite (bind_returned _ _ _ _ _ E3). reflexivity.
  - simpl. split; intros E.
    + rewrite override_other by discriminate.
      unfold override.
      change (pretty 1090 +:+ "serial") with "1090serial". rewrite E.
      simpl. apply lookup_insert_eq.
    + unfold override at 1.
      change (pretty 978 +:+ "serial") with "978serial". rewrite E.
      simpl. apply lookup_insert_eq.
Qed.

Lemma none_setting_overrides_heuristic_witness :
  ∃ out self3 p3,
    sdr_info Bench.twins
      (λ tag, if String.eqb tag "1090serial" then Some {| value := None |} else None)
      Bench.recent idle
      = (Returned (out, self3), p3)
    ∧ frequencies out !! 1090 = Some None.
Proof.
  destruct (none_setting_overrides_heuristic
              Bench.twins
              (λ tag, if String.eqb tag "1090serial" then Some {| value := None |}
                      else None)
              Bench.recent idle
              Bench.recent {| ticks := 1; journal := [] |}
              (<[1090 := Some "1090"]> (blank [1090; 978]))
              Bench.recent {| ticks := 2; journal := [] |})
    as (out & self3 & p3 & E & H1090 & _).
  - reflexivity.
  - vm_compute. reflexivity.
  - exists out, self3, p3. split; [exact E |]. now apply H1090.
Defined.

(** ** The timezone of the browser *)

Section TimezoneFacts.

Import Timezone.

Lemma word_Some s r :
  word s = Some r →
  ∃ u w, s = String u (w +:+ r) ∧ isupper u = true
         ∧ w ≠ "" ∧ every islower w = true.
Proof.
  unfold word. destruct s as [| u s]; [discriminate |].
  destruct (isupper u) eqn:Hu; [| discriminate].
  destruct (Text.plus islower s) as [[w r'] |] eqn:E; [| discriminate].
  rewrite option_bind_Some. intros [= <-].
  apply plus_Some in E as (Hne & Hw & ->). now exists u, w.
Qed.

Lemma word_run u w r :
  isupper u = true → w ≠ "" → every islower w = true →
  match r with String c _ => islower c = false | EmptyString => True end →
  word (String u (w +:+ r)) = Some r.
Proof.
  intros Hu Hne Hw Hr. unfold word. rewrite Hu.
  now rewrite (plus_run islower w r Hne Hw Hr).
Qed.

Lemma at_end_true e : at_end e = true ↔ e = "" ∨ e = String Text.LF "".
Proof.
  split.
  - destruct e as [| c [| c' e]]; simpl; [now left | | discriminate].
    intros E. apply Ascii.eqb_eq in E as ->. now right.
  - intros [-> | ->]; reflexivity.
Qed.

Lemma looks_like_timezone_true tz :
  looks_like_timezone tz = true ↔
  ∃ u1 w1 u2 w2 e,
    tz = String u1 w1 +:+ "/" +:+ String u2 w2 +:+ e
    ∧ isupper u1 = true ∧ w1 ≠ "" ∧ every islower w1 = true
    ∧ isupper u2 = true ∧ w2 ≠ "" ∧ every islower w2 = true
    ∧ (e = "" ∨ e = String Text.LF "").
Proof.
  unfold looks_like_timezone. split.
  - destruct (word tz) as [r1 |] eqn:E1; [| discriminate].
    rewrite option_bind_Some.
    destruct (Text.literal "/" r1) as [r2 |] eqn:E2; [| discriminate].
    rewrite option_bind_Some.
    destruct (word r2) as [r3 |] eqn:E3; [| discriminate].
    intros He. apply at_end_true in He.
    apply word_Some in E1 as (u1 & w1 & -> & Hu1 & Hn1 & Hw1).
    apply literal_Some in E2 as ->.
    apply word_Some in E3 as (u2 & w2 & -> & Hu2 & Hn2 & Hw2).
    exists u1, w1, u2, w2, r3. repeat split; auto.
  - intros (u1 & w1 & u2 & w2 & e & -> & Hu1 & Hn1 & Hw1 & Hu2 & Hn2 & Hw2 & He).
    change (String u1 w1 +:+ "/" +:+ String u2 w2 +:+ e)
      with (String u1 (w1 +:+ "/" +:+ String u2 w2 +:+ e)).
    rewrite (word_run u1 w1 ("/" +:+ String u2 w2 +:+ e)) by (auto; reflexivity).
    rewrite option_bind_Some.
    rewrite literal_app, option_bind_Some.
    change (String u2 w2 +:+ e) with (String u2 (w2 +:+ e)).
    rewrite (word_run u2 w2 e); auto.
    + now apply at_end_true.
    + destruct He as [-> | ->]; [exact I | reflexivity].
Qed.

End TimezoneFacts.

(** X18. [get_tz] answers [invalid] for every timezone but those made of
    two words around one slash, each an upper-case letter A to Z and then
    one or more lower-case letters a to z, with nothing else but, at most,
    one line feed at the very end. So Europe/Rome is taken, and a name
    with an underscore, a digit, a hyphen, a second slash or no slash at
    all is refused. *)
Theorem get_tz_takes_two_capitalised_words (H : Host) tz p :
  fst (Timezone.get_tz H tz p) ≠ Returned (Timezone.Body "invalid", None)
  ↔ ∃ u1 w1 u2 w2 e,
      tz = String u1 w1 +:+ "/" +:+ String u2 w2 +:+ e
      ∧ Timezone.isupper u1 = true ∧ w1 ≠ ""
      ∧ every Timezone.islower w1 = true
      ∧ Timezone.isupper u2 = true ∧ w2 ≠ ""
      ∧ every Timezone.islower w2 = true
      ∧ (e = "" ∨ e = String Text.LF "").
Proof.
  rewrite <- looks_like_timezone_true. unfold Timezone.get_tz.
  destruct (Timezone.looks_like_timezone tz); simpl.
  - split; [reflexivity |]. intros _.
    unfold bind, try_subprocess, subprocess_run_checked.
    destruct (shell H (ticks p) _); simpl; discriminate.
  - split; [| discriminate]. intros Hn. now contradiction Hn.
Qed.

(** X19. A timezone that is refused changes nothing: no command is run,
    nothing is printed and no setting is stored. A timezone that is taken
    is stored in [FEEDER_TZ] and handed to [timedatectl], once, in a
    command line that ends with it; the page is rendered also when the
    command raises, which is written to stderr. *)
Theorem get_tz_runs_timedatectl_once (H : Host) tz p :
  (Timezone.looks_like_timezone tz = false →
   Timezone.get_tz H tz p = (Returned (Timezone.Body "invalid", None), p))
  ∧ (Timezone.looks_like_timezone tz = true →
     ∃ p',
       Timezone.get_tz H tz p
         = (Returned (Timezone.Template "setup.html", Some tz), p')
       ∧ commands_run p'
         = (commands_run p ++ ["timedatectl set-timezone " +:+ tz])%list
       ∧ (shell H (ticks p) ("timedatectl set-timezone " +:+ tz) = Fails →
          journal p' = (journal p
                        ++ [Ran ("timedatectl set-timezone " +:+ tz);
                            ToStderr "failed to set up timezone"])%list)).
Proof.
  unfold Timezone.get_tz. split; intros ->; simpl; [reflexivity |].
  unfold bind, try_subprocess, subprocess_run_checked, print_err, emit, ret.
  destruct (shell H (ticks p) _) as [out |]; simpl; eexists; split;
    try reflexivity; unfold commands_run; simpl; rewrite ?omap_app; simpl;
    rewrite ?app_nil_r; split; try reflexivity; try discriminate.
  intros _. now rewrite <- app_assoc.
Qed.

Lemma get_tz_runs_timedatectl_once_witness :
  ∃ p',
    Timezone.get_tz Bench.unplugged "Europe/Rome" idle
      = (Returned (Timezone.Template "setup.html", Some "Europe/Rome"), p')
    ∧ commands_run p' = ["timedatectl set-timezone Europe/Rome"].
Proof.
  destruct (get_tz_runs_timedatectl_once Bench.unplugged "Europe/Rome" idle)
    as [_ Hyes].
  destruct (Hyes eq_refl) as (p' & E & Hc & _).
  exists p'. split; [exact E | exact Hc].
Defined.

(** ** One device for each address *)

Section OnePerAddress.

Variable H : Host.
Hypothesis stable_H : stable H.

Lemma consistent_equal d d' :
  equal_devices H d d' → consistent H d → consistent H d'.
Proof.
  unfold consistent. intros (Et & Ea & Es) Hc. now rewrite <- Et, <- Ea, <- Es.
Qed.

Lemma consistent_new t a : consistent H (SDR_init t a).
Proof. reflexivity. Qed.

Lemma Forall_consistent_equal l l' :
  Forall2 (equal_devices H) l l' →
  Forall (consistent H) l → Forall (consistent H) l'.
Proof.
  induction 1 as [| d d' l l' Hd _ IH]; intros Hl; [constructor |].
  inversion Hl; subst. constructor; [now apply (consistent_equal d) | now apply IH].
Qed.

Lemma consider_consistent line found pidvid :
  distinct H found ∧ Forall (consistent H) found →
  yields (consider H line found pidvid)
    (λ found', distinct H found' ∧ Forall (consistent H) found').
Proof.
  intros [D C]. unfold consider.
  destruct (truthy (Some (_get_address_for_pid_vid pidvid line)));
    [| now apply yields_ret].
  eapply yields_bind; [apply yields_print |]. intros _ _.
  assert (Cc : consistent H
                 (if Text.startswith pidvid "1df7"
                  then SDR_init "sdrplay" (_get_address_for_pid_vid pidvid line)
                  else if String.eqb pidvid "1d50:60a1"
                       then SDR_init "airspy" (_get_address_for_pid_vid pidvid line)
                       else SDR_init "rtlsdr" (_get_address_for_pid_vid pidvid line))).
  { destruct (Text.startswith pidvid "1df7");
      [| destruct (String.eqb pidvid "1d50:60a1")]; apply consistent_new. }
  eapply yields_bind; [now apply list_contains_stable |].
  intros [[present found'] c'] (Hp & HF & Hc). simpl in Hp, HF, Hc.
  pose proof (distinct_equal H _ _ HF D) as D'.
  pose proof (Forall_consistent_equal _ _ HF C) as C'.
  destruct present; simpl; apply yields_ret; [now split |].
  split.
  - apply distinct_snoc; [exact D' |].
    intros x' Hx' Hxc.
    apply list_elem_of_lookup in Hx' as [i Hi].
    destruct (Forall2_lookup_r _ _ _ _ _ HF Hi) as (x & Ex & Rxx).
    assert (false = true) as Habs; [| discriminate].
    apply Hp. exists x. split; [eapply list_elem_of_lookup_2, Ex |].
    eapply equal_devices_trans; [exact Rxx |].
    eapply equal_devices_trans; [exact Hxc |].
    now apply equal_devices_sym.
  - apply Forall_app. split; [exact C' |].
    constructor; [| constructor]. now apply (consistent_equal _ _ Hc).
Qed.

Lemma collect_consistent lines :
  yields (collect H lines)
    (λ found, distinct H found ∧ Forall (consistent H) found).
Proof.
  unfold collect. apply yields_foldM.
  - intros found line HI. apply yields_foldM; [| exact HI].
    intros found' pidvid HI'. now apply consider_consistent.
  - split; [apply distinct_nil | constructor].
Qed.

Lemma get_sdr_info_one_per_address self text :
  shell H 0 "lsusb" = Stdout text →
  yields (get_sdr_info H self)
    (λ self', ∀ i j a b,
       sdrs self' !! i = Some a → sdrs self' !! j = Some b →
       same_identity a b → i = j).
Proof.
  intros E. unfold get_sdr_info.
  eapply yields_bind; [apply (lsusb_stable H stable_H text E) |]. intros r ->.
  eapply yields_bind; [apply yields_print_err |]. intros _ _.
  eapply yields_bind; [apply collect_consistent |]. intros found [D C].
  eapply yields_bind;
    [apply (yields_for_each _ (noted H) (equal_devices H)),
             note_serial_stable, stable_H |].
  intros [[F' D'] found'] [_ HF]. simpl in HF.
  apply yields_ret. simpl.
  pose proof (distinct_equal H _ _ HF D) as Dd.
  pose proof (Forall_consistent_equal _ _ HF C) as Cc.
  intros i j a b Ha Hb [Et Ea].
  destruct (decide (i = j)) as [-> | Hne]; [reflexivity |].
  exfalso. apply (Dd i j a b Hne Ha Hb).
  split; [exact Et |]. split; [exact Ea |].
  rewrite Forall_forall in Cc.
  rewrite (Cc a), (Cc b), Et, Ea;
    [reflexivity | eapply list_elem_of_lookup_2, Hb
     | eapply list_elem_of_lookup_2, Ha].
Qed.

End OnePerAddress.

(** X20. On a host whose answers do not change, whatever the listing
    prints (the same line twice, for instance), the list that a refresh
    stores has at most one device of a given type at a given address. *)
Theorem one_device_for_each_address (H : Host) self p text :
  stable H →
  shell H (ticks p) "lsusb" = Stdout text →
  ∃ self' p',
    get_sdr_info H self p = (Returned self', p')
    ∧ ∀ i j a b,
        sdrs self' !! i = Some a → sdrs self' !! j = Some b →
        _type a = _type b → _address a = _address b → i = j.
Proof.
  intros St E. rewrite (St _ 0%nat) in E.
  destruct (get_sdr_info_one_per_address H St self text E p)
    as (self' & p' & Ei & Hone).
  exists self', p'. split; [exact Ei |].
  intros i j a b Ha Hb Et Ea. apply (Hone i j a b Ha Hb). now split.
Qed.

Lemma one_device_for_each_address_witness :
  ∃ self' p',
    get_sdr_info
      (Bench.host_with
         (Stdout (Bench.rtlsdr_line "001:003" +:+ Bench.rtlsdr_line "001:003"))
         (λ _, Bench.with_serial "1090") Bench.noon)
      SDRDevices_init idle = (Returned self', p')
    ∧ ∀ i j a b,
        sdrs self' !! i = Some a → sdrs self' !! j = Some b →
        _type a = _type b → _address a = _address b → i = j.
Proof.
  apply (one_device_for_each_address
           (Bench.host_with
              (Stdout (Bench.rtlsdr_line "001:003" +:+ Bench.rtlsdr_line "001:003"))
              (λ _, Bench.with_serial "1090") Bench.noon)
           SDRDevices_init idle
           (Bench.rtlsdr_line "001:003" +:+ Bench.rtlsdr_line "001:003")).
  - apply stable_host_with.
  - reflexivity.
Defined.

Lemma get_tz_takes_two_capitalised_words_witness :
  fst (Timezone.get_tz Bench.unplugged "Europe/Rome" idle)
  ≠ Returned (Timezone.Body "invalid", None).
Proof.
  apply (get_tz_takes_two_capitalised_words Bench.unplugged "Europe/Rome" idle).
  exists "E"%char, "urope", "R"%char, "ome", "".
  repeat split; solve [reflexivity | discriminate | now left].
Defined.
